(** * Delivery manager of the zap gateway: a shallow embedding

    The development follows [delivery_manager.go] and the administrative
    handlers ([DeliveryStatus], [EventStatus], [DeliveryMetrics],
    [ForceRetry]).  Go pointers to [DeliveryEvent] records are addresses in
    an explicit heap, the pending map is a finite map from ids to addresses,
    and every [go dm.processDelivery(event)] statement adds the address to a
    pool of spawned goroutines; a goroutine's only access to shared state is
    the critical section at the end of [processDelivery], so one goroutine
    is one atomic transition of the model. *)

From Stdlib Require Import ZArith Lia Ascii.
From stdpp Require Import gmap strings list fin_maps pretty.

Local Open Scope Z_scope.

(** ** Machine integers and time *)

Module Int64.
Definition min_int : Z := - 2 ^ 63.
Definition max_int : Z := 2 ^ 63 - 1.

(** Two's complement wrap-around of Go's [int] on a 64-bit platform. *)
Definition wrap (z : Z) : Z := (z + 2 ^ 63) mod 2 ^ 64 - 2 ^ 63.

(** Saturation, as [time.Time.Sub] does on overflow of a [Duration]. *)
Definition clamp (z : Z) : Z := Z.max min_int (Z.min max_int z).

Definition in_range (z : Z) : Prop := min_int <= z <= max_int.
End Int64.

(** Instants and durations are counted in nanoseconds. *)
Definition second : Z := 1000000000.

(** [time.Since(t)] evaluated when the clock reads [now]. *)
Definition time_Since (now t : Z) : Z := Int64.clamp (now - t).

(** [Duration.Milliseconds]: integer division truncating toward zero. *)
Definition Milliseconds (d : Z) : Z := Z.quot d 1000000.

(** ** Data model *)

Inductive DeliveryStatus : Set :=
| DeliveryStatusPending
| DeliveryStatusDelivered
| DeliveryStatusFailed.

#[global] Instance DeliveryStatus_eq_dec : EqDecision DeliveryStatus.
Proof. solve_decision. Defined.

(** The [Payload] field (a [map[string]interface{}]) is read by none of the
    functions below and is left out; [JsonData] is the byte string. *)
Record DeliveryEvent : Set := mkDeliveryEvent {
  ID : string;
  UserID : string;
  Token : string;
  EventType : string;
  JsonData : string;
  FilePath : string;
  CreatedAt : Z;
  AttemptCount : Z;
  Status : DeliveryStatus;
  LastError : string
}.

Record DeliveryResult : Set := mkDeliveryResult {
  Channel : string;
  Success : bool;
  Error : string;
  Duration : Z;
  Timestamp : Z
}.

#[global] Instance DeliveryResult_eq_dec : EqDecision DeliveryResult.
Proof. solve_decision. Defined.

(** Field assignments [event.F = v]. *)
Definition set_ID (v : string) (e : DeliveryEvent) : DeliveryEvent :=
  mkDeliveryEvent v (UserID e) (Token e) (EventType e) (JsonData e)
    (FilePath e) (CreatedAt e) (AttemptCount e) (Status e) (LastError e).

Definition set_CreatedAt (v : Z) (e : DeliveryEvent) : DeliveryEvent :=
  mkDeliveryEvent (ID e) (UserID e) (Token e) (EventType e) (JsonData e)
    (FilePath e) v (AttemptCount e) (Status e) (LastError e).

Definition set_AttemptCount (v : Z) (e : DeliveryEvent) : DeliveryEvent :=
  mkDeliveryEvent (ID e) (UserID e) (Token e) (EventType e) (JsonData e)
    (FilePath e) (CreatedAt e) v (Status e) (LastError e).

Definition set_Status (v : DeliveryStatus) (e : DeliveryEvent) : DeliveryEvent :=
  mkDeliveryEvent (ID e) (UserID e) (Token e) (EventType e) (JsonData e)
    (FilePath e) (CreatedAt e) (AttemptCount e) v (LastError e).

Definition set_LastError (v : string) (e : DeliveryEvent) : DeliveryEvent :=
  mkDeliveryEvent (ID e) (UserID e) (Token e) (EventType e) (JsonData e)
    (FilePath e) (CreatedAt e) (AttemptCount e) (Status e) v.

(** Addresses of heap-allocated [DeliveryEvent] records. *)
Abbreviation loc := positive.

Record DeliveryManager : Type := mkDeliveryManager {
  pendingEvents : gmap string loc;
  maxRetries : Z;
  retryBackoff : Z;
  timeout : Z
}.

(** Outgoing calls made by the channel adapters. *)
Inductive NetCall : Set :=
| PostForm (url : string) (data : list (string * string))
| PostFile (url : string) (data : list (string * string)) (userID file : string)
| PublishSync (jsonData eventType userID token : string).

(** Shared state: the heap of event records, the manager, the goroutines
    spawned by [go dm.processDelivery(event)] that have not yet run their
    critical section, and the log of outgoing calls. *)
Record World : Type := mkWorld {
  heap : gmap loc DeliveryEvent;
  dm : DeliveryManager;
  goroutines : list loc;
  network : list NetCall
}.

(** The collaborators of one fan-out cycle.  Their code is outside the
    delivery manager; each is a parameter of the cycle.  [respond] gives the
    error of an outgoing call ([None] is Go's nil error), [ctxDone] tells
    whether the shared deadline had expired when the broker adapter polled
    it, and [clock] gives, per channel, the two clock readings of the
    adapter (at entry and when the duration is taken). *)
Record Env : Type := mkEnv {
  getUserWebhookUrl : string -> string;
  globalWebhook : string;
  rabbitEnabled : bool;
  GetHTTPClient : string -> bool;
  userinfocache : gmap string (gmap string string);
  respond : NetCall -> option string;
  ctxDone : bool;
  clock : string -> Z * Z
}.

(** ** InitDeliveryManager *)

Definition InitDeliveryManager : DeliveryManager :=
  {| pendingEvents := ∅;
     maxRetries := 3;
     retryBackoff := 2 * second;
     timeout := 10 * second |}.

(** ** Channel adapters

    Each adapter returns its result together with the outgoing calls it
    made. *)

Definition instanceName (env : Env) (token : string) : string :=
  match userinfocache env !! token with
  | Some userinfo => default "" (userinfo !! "Name")
  | None => ""
  end.

Definition result_of (channel : string) (start stop : Z) (err : option string)
  : DeliveryResult :=
  match err with
  | Some msg =>
      {| Channel := channel; Success := false; Error := msg;
         Duration := Milliseconds (time_Since stop start); Timestamp := start |}
  | None =>
      {| Channel := channel; Success := true; Error := "";
         Duration := Milliseconds (time_Since stop start); Timestamp := start |}
  end.

Definition deliverToUserWebhook (env : Env) (event : DeliveryEvent)
    (webhookURL : string) : DeliveryResult * list NetCall :=
  let '(start, stop) := clock env "webhook" in
  if negb (GetHTTPClient env (UserID event)) then
    ({| Channel := "webhook"; Success := false;
        Error := "HTTP client not found for user";
        Duration := Milliseconds (time_Since stop start);
        Timestamp := start |}, [])
  else
    let data := [("jsonData", JsonData event); ("token", Token event);
                 ("instanceName", instanceName env (Token event))] in
    let call :=
      if decide (FilePath event = "") then PostForm webhookURL data
      else PostFile webhookURL data (UserID event) (FilePath event) in
    (result_of "webhook" start stop (respond env call), [call]).

Definition deliverToGlobalWebhook (env : Env) (event : DeliveryEvent)
  : DeliveryResult * list NetCall :=
  let '(start, stop) := clock env "global_webhook" in
  let globalData := [("jsonData", JsonData event); ("token", Token event);
                     ("userID", UserID event);
                     ("instanceName", instanceName env (Token event))] in
  if GetHTTPClient env (UserID event) then
    let call := PostForm (globalWebhook env) globalData in
    (result_of "global_webhook" start stop (respond env call), [call])
  else
    ({| Channel := "global_webhook"; Success := false;
        Error := "HTTP client not available";
        Duration := Milliseconds (time_Since stop start);
        Timestamp := start |}, []).

Definition deliverToRabbitMQ (env : Env) (event : DeliveryEvent)
  : DeliveryResult * list NetCall :=
  let '(start, stop) := clock env "rabbitmq" in
  if ctxDone env then
    ({| Channel := "rabbitmq"; Success := false; Error := "Context timeout";
        Duration := Milliseconds (time_Since stop start);
        Timestamp := start |}, [])
  else
    let call := PublishSync (JsonData event) (EventType event)
                  (UserID event) (Token event) in
    (result_of "rabbitmq" start stop (respond env call), [call]).

(** ** processDelivery *)

(** The three guarded [go func() { ... results <- result }()] blocks: one
    adapter run per enabled channel.  The results reach the collector in
    completion order; they are listed here in dispatch order, and
    [collect_Permutation] shows that the aggregate does not depend on it. *)
Definition dispatch (env : Env) (event : DeliveryEvent)
  : list (DeliveryResult * list NetCall) :=
  let webhookURL := getUserWebhookUrl env (Token event) in
  (if decide (webhookURL = "") then []
   else [deliverToUserWebhook env event webhookURL]) ++
  (if decide (globalWebhook env = "") then []
   else [deliverToGlobalWebhook env event]) ++
  (if rabbitEnabled env then [deliverToRabbitMQ env event] else []).

(** The [for result := range results] loop: the collected slice and the
    [allSuccess] flag. *)
Definition collect_step (st : list DeliveryResult * bool) (result : DeliveryResult)
  : list DeliveryResult * bool :=
  (st.1 ++ [result], if Success result then st.2 else false).

Definition collect (results : list DeliveryResult) : list DeliveryResult * bool :=
  foldl collect_step ([], true) results.

(** The critical section, for an event record [event] found at [ref]: the
    statements between [dm.mu.Lock()] and [dm.mu.Unlock()], as one update.
    The handler [ForceRetry] writes the count and the status without the
    lock; its statements are steps of their own ([ForceRetry_statement]),
    taken before or after a critical section, not inside one. *)
Definition update_status (allSuccess : bool) (ref : loc) (event : DeliveryEvent)
    (w : World) : World :=
  let m := dm w in
  if allSuccess then
    let event := set_Status DeliveryStatusDelivered event in
    {| heap := <[ref := event]> (heap w);
       dm := {| pendingEvents := delete (ID event) (pendingEvents m);
                maxRetries := maxRetries m;
                retryBackoff := retryBackoff m;
                timeout := timeout m |};
       goroutines := goroutines w;
       network := network w |}
  else
    let event := set_AttemptCount (Int64.wrap (AttemptCount event + 1)) event in
    if decide (maxRetries m <= AttemptCount event) then
      let event := set_Status DeliveryStatusFailed event in
      let event := set_LastError "Max retries exceeded" event in
      {| heap := <[ref := event]> (heap w);
         dm := {| pendingEvents := delete (ID event) (pendingEvents m);
                  maxRetries := maxRetries m;
                  retryBackoff := retryBackoff m;
                  timeout := timeout m |};
         goroutines := goroutines w;
         network := network w |}
    else
      {| heap := <[ref := event]> (heap w);
         dm := m;
         goroutines := goroutines w;
         network := network w |}.

(** [processDelivery(event)] with [event] the pointer [ref]; [None] is the
    nil-pointer panic.  The state [w] is the one the cycle meets in its
    critical section, where it reads the count and the id under the write
    lock: a cycle is one step, taken at that moment and not when the
    goroutine was spawned.  The fan-out before it reads only the token, the
    tenant, the type, the body and the file path, which no operation of
    the manager rewrites ([step_content]). *)
Definition processDelivery (env : Env) (ref : loc) (w : World) : option World :=
  event ← heap w !! ref;
  let runs := dispatch env event in
  let '(deliveryResults, allSuccess) := collect (fst <$> runs) in
  let w := mkWorld (heap w) (dm w) (goroutines w)
             (network w ++ concat (snd <$> runs)) in
  Some (update_status allSuccess ref event w).

(** ** DeliverEvent *)

(** [fmt.Sprintf("%s_%d", userID, nanos)]. *)
Definition Sprintf_id (userID : string) (nanos : Z) : string :=
  userID +:+ "_" +:+ pretty nanos.

(** [DeliverEvent(event)] with [event] the pointer [ref].  [now] and
    [idnow] are the two readings of [time.Now()], the second one as
    [UnixNano()]. *)
Definition DeliverEvent (ref : loc) (now idnow : Z) (w : World) : option World :=
  event ← heap w !! ref;
  let event := set_CreatedAt now event in
  let event := set_Status DeliveryStatusPending event in
  let event :=
    if decide (ID event = "") then set_ID (Sprintf_id (UserID event) idnow) event
    else event in
  let m := dm w in
  Some {| heap := <[ref := event]> (heap w);
          dm := {| pendingEvents := <[ID event := ref]> (pendingEvents m);
                   maxRetries := maxRetries m;
                   retryBackoff := retryBackoff m;
                   timeout := timeout m |};
          goroutines := goroutines w ++ [ref];
          network := network w |}.

(** ** Queries *)

Definition GetPendingEventsCount (w : World) : Z :=
  Z.of_nat (size (pendingEvents (dm w))).

(** [GetEventStatus(eventID)] returns [(event, exists)]; the pointer is
    nil ([None]) when the id is absent. *)
Definition GetEventStatus (eventID : string) (w : World) : option loc * bool :=
  let event := pendingEvents (dm w) !! eventID in
  (event, bool_decide (is_Some event)).

(** ** retryFailedEvents

    Go visits the entries of a map in an unspecified order: the order of the
    visit is the parameter [range], a listing of the map's entries.
    [clockAt id] is the clock reading taken by [time.Since] when the entry
    with key [id] is visited. *)

Definition retry_condition (m : DeliveryManager) (now : Z) (event : DeliveryEvent)
  : bool :=
  bool_decide (Status event = DeliveryStatusPending) &&
  bool_decide (AttemptCount event < maxRetries m) &&
  bool_decide (retryBackoff m < time_Since now (CreatedAt event)).

Fixpoint select_retries (m : DeliveryManager) (h : gmap loc DeliveryEvent)
    (clockAt : string -> Z) (range : list (string * loc))
    (eventsToRetry : list loc) : option (list loc) :=
  match range with
  | [] => Some eventsToRetry
  | (id, ref) :: range =>
      event ← h !! ref;
      if retry_condition m (clockAt id) event
      then select_retries m h clockAt range (eventsToRetry ++ [ref])
      else select_retries m h clockAt range eventsToRetry
  end.

Definition retryFailedEvents (clockAt : string -> Z) (range : list (string * loc))
    (w : World) : option World :=
  eventsToRetry ← select_retries (dm w) (heap w) clockAt range [];
  Some {| heap := heap w;
          dm := dm w;
          goroutines := goroutines w ++ eventsToRetry;
          network := network w |}.

(** ** Administrative handlers

    The package variable [deliveryManager] is [None] while it is still nil.
    A handler returns the response it writes.  The 500 answer to a failing
    [json.Marshal] is left out, together with the [Payload] field that
    could make it fail. *)

Record Metrics : Type := mkMetrics {
  total_pending : Z;
  filtered_count : Z;
  shown_count : Z;
  events : list loc
}.

Inductive Body : Type :=
| BodyText (msg : string)
| BodyEvent (event : loc)
| BodyMetrics (metrics : Metrics).

Record Response : Type := mkResponse {
  code : Z;
  body : Body
}.

Definition StatusOK : Z := 200.
Definition StatusBadRequest : Z := 400.
Definition StatusNotFound : Z := 404.
Definition StatusServiceUnavailable : Z := 503.

(** [EventStatus]: [eventID] is [mux.Vars(r)["eventId"]]. *)
Definition EventStatus (eventID : string) (deliveryManager : option World)
  : Response :=
  match deliveryManager with
  | None =>
      mkResponse StatusServiceUnavailable (BodyText "Delivery manager not initialized")
  | Some w =>
      if decide (eventID = "") then
        mkResponse StatusBadRequest (BodyText "Event ID is required")
      else
        match GetEventStatus eventID w with
        | (Some event, true) => mkResponse StatusOK (BodyEvent event)
        | _ => mkResponse StatusNotFound
                 (BodyText "Event not found or already completed")
        end
  end.

(** [strconv.Atoi] of Go's standard library: an optional sign followed by
    one or more decimal digits, rejected when the value does not fit the
    64-bit [int]. *)
Definition digit_of (c : ascii) : option Z :=
  let n := Z.of_N (N_of_ascii c) in
  if bool_decide (48 <= n <= 57) then Some (n - 48) else None.

Fixpoint parse_digits (s : string) (acc : Z) : option Z :=
  match s with
  | EmptyString => Some acc
  | String c s => d ← digit_of c; parse_digits s (10 * acc + d)
  end.

Definition Atoi (s : string) : option Z :=
  match s with
  | EmptyString => None
  | String c rest =>
      let neg := bool_decide (c = "-"%char) in
      let digits :=
        if bool_decide (c = "-"%char) || bool_decide (c = "+"%char)
        then rest else s in
      if decide (digits = "") then None
      else
        n ← parse_digits digits 0;
        let v := if neg then - n else n in
        if bool_decide (Int64.min_int <= v <= Int64.max_int) then Some v
        else None
  end.

(** The limit of [DeliveryMetrics] from the [limit] query parameter
    ([""] when the parameter is absent). *)
Definition parse_limit (limitStr : string) : Z :=
  if decide (limitStr = "") then 50
  else
    match Atoi limitStr with
    | Some parsedLimit => if decide (0 < parsedLimit) then parsedLimit else 50
    | None => 50
    end.

(** The loop of [DeliveryMetrics] over the pending map, visited in the
    order [range]. *)
Fixpoint metrics_loop (h : gmap loc DeliveryEvent) (userID : string) (limit : Z)
    (range : list (string * loc)) (events : list loc) (count : Z)
  : option (list loc * Z) :=
  match range with
  | [] => Some (events, count)
  | (_, ref) :: range =>
      event ← h !! ref;
      if bool_decide (userID = "") || bool_decide (UserID event = userID) then
        metrics_loop h userID limit range
          (if decide (count < limit) then events ++ [ref] else events)
          (count + 1)
      else metrics_loop h userID limit range events count
  end.

(** [DeliveryMetrics]: [userID] and [limitStr] are the query parameters
    [user_id] and [limit].  [None] is the nil-pointer panic. *)
Definition DeliveryMetrics (userID limitStr : string)
    (range : list (string * loc)) (deliveryManager : option World)
  : option Response :=
  match deliveryManager with
  | None =>
      Some (mkResponse StatusServiceUnavailable
              (BodyText "Delivery manager not initialized"))
  | Some w =>
      let limit := parse_limit limitStr in
      '(events, count) ← metrics_loop (heap w) userID limit range [] 0;
      Some (mkResponse StatusOK
              (BodyMetrics
                 {| total_pending := Z.of_nat (size (pendingEvents (dm w)));
                    filtered_count := count;
                    shown_count := Z.of_nat (length events);
                    events := events |}))
  end.

(** [DeliveryMetrics] with its two reads of the shared state told apart:
    the loop runs on [w], under the read lock, and [len(pendingEvents)] is
    read on [later], after [RUnlock], when other goroutines may have
    changed the map.  [DeliveryMetrics] is the case [later = w]
    ([DeliveryMetrics_reads_same]). *)
Definition DeliveryMetrics_reads (userID limitStr : string)
    (range : list (string * loc)) (w later : World) : option Response :=
  let limit := parse_limit limitStr in
  '(events, count) ← metrics_loop (heap w) userID limit range [] 0;
  Some (mkResponse StatusOK
          (BodyMetrics
             {| total_pending := Z.of_nat (size (pendingEvents (dm later)));
                filtered_count := count;
                shown_count := Z.of_nat (length events);
                events := events |})).

(** [ForceRetry]: [eventID] is [mux.Vars(r)["eventId"]]; [clockAt] and
    [range] serve the sweep taken when no id is given.  The result is the
    response and the new value of the shared state.  This is the handler
    run with no other goroutine in between; the lookup and the writes are
    not under one lock, and [ForceRetry_lookup] and [ForceRetry_reset]
    below are its two halves ([ForceRetry_halves]). *)
Definition ForceRetry (eventID : string) (clockAt : string -> Z)
    (range : list (string * loc)) (deliveryManager : option World)
  : option (Response * option World) :=
  match deliveryManager with
  | None =>
      Some (mkResponse StatusServiceUnavailable
              (BodyText "Delivery manager not initialized"), None)
  | Some w =>
      if decide (eventID = "") then
        w' ← retryFailedEvents clockAt range w;
        Some (mkResponse StatusOK (BodyText "Retry triggered for all pending events"),
              Some w')
      else
        match GetEventStatus eventID w with
        | (Some ref, true) =>
            event ← heap w !! ref;
            let event := set_AttemptCount 0 event in
            let event := set_Status DeliveryStatusPending event in
            Some (mkResponse StatusOK
                    (BodyText ("Retry triggered for event: " +:+ eventID)),
                  Some {| heap := <[ref := event]> (heap w);
                          dm := dm w;
                          goroutines := goroutines w ++ [ref];
                          network := network w |})
        | _ => Some (mkResponse StatusNotFound (BodyText "Event not found"),
                     Some w)
        end
  end.

(** The first half of [ForceRetry], up to the return of [GetEventStatus],
    which releases the read lock: either the handler has answered already
    (manager not initialised, sweep for the empty id, id not found), or it
    holds the pointer found under the id. *)
Inductive Lookup : Type :=
| Answered (resp : Response) (deliveryManager' : option World)
| Found (ref : loc).

Definition ForceRetry_lookup (eventID : string) (clockAt : string -> Z)
    (range : list (string * loc)) (deliveryManager : option World)
  : option Lookup :=
  match deliveryManager with
  | None =>
      Some (Answered (mkResponse StatusServiceUnavailable
                        (BodyText "Delivery manager not initialized")) None)
  | Some w =>
      if decide (eventID = "") then
        w' ← retryFailedEvents clockAt range w;
        Some (Answered
                (mkResponse StatusOK
                   (BodyText "Retry triggered for all pending events"))
                (Some w'))
      else
        match GetEventStatus eventID w with
        | (Some ref, true) => Some (Found ref)
        | _ => Some (Answered
                       (mkResponse StatusNotFound (BodyText "Event not found"))
                       (Some w))
        end
  end.

(** The second half: the three statements that follow the lookup, each
    made without any lock on the state [w] of its own moment, for the
    pointer [ref] the lookup returned: [event.AttemptCount = 0],
    [event.Status = DeliveryStatusPending] and
    [go deliveryManager.processDelivery(event)]. *)
Inductive Statement : Type :=
| SetAttemptCount
| SetStatus
| Spawn.

Definition ForceRetry_statement (st : Statement) (ref : loc) (w : World)
  : option World :=
  match st with
  | SetAttemptCount =>
      event ← heap w !! ref;
      Some {| heap := <[ref := set_AttemptCount 0 event]> (heap w);
              dm := dm w;
              goroutines := goroutines w;
              network := network w |}
  | SetStatus =>
      event ← heap w !! ref;
      Some {| heap := <[ref := set_Status DeliveryStatusPending event]> (heap w);
              dm := dm w;
              goroutines := goroutines w;
              network := network w |}
  | Spawn =>
      Some {| heap := heap w;
              dm := dm w;
              goroutines := goroutines w ++ [ref];
              network := network w |}
  end.


(** ** The manager as a transition system

    The operations that reach the shared state, one label each.  A
    producer builds a record ([OpNew]) and submits its address
    ([OpDeliverEvent]); a spawned goroutine runs its fan-out cycle
    ([OpProcessDelivery], the goroutine at position [i] of the pool, in the
    environment [env] it meets); the ticker of [processRetries] fires
    ([OpRetryTick]); an administrator calls [ForceRetry].  A call of
    [ForceRetry] is either one step ([OpForceRetry], nothing happens
    between its lookup and its writes) or, when other operations come in
    between, the statements of its second half one by one
    ([OpForceRetryStatement]): the lookup changes nothing, so only the
    statements after it are steps of their own. *)
Inductive Op : Type :=
| OpNew (event : DeliveryEvent)
| OpDeliverEvent (ref : loc) (now idnow : Z)
| OpProcessDelivery (env : Env) (i : nat)
| OpRetryTick (clockAt : string -> Z) (range : list (string * loc))
| OpForceRetry (eventID : string) (clockAt : string -> Z)
    (range : list (string * loc))
| OpForceRetryStatement (st : Statement) (ref : loc).

Definition exec (op : Op) (w : World) : option World :=
  match op with
  | OpNew event =>
      Some {| heap := <[fresh (dom (heap w)) := event]> (heap w);
              dm := dm w;
              goroutines := goroutines w;
              network := network w |}
  | OpDeliverEvent ref now idnow => DeliverEvent ref now idnow w
  | OpProcessDelivery env i =>
      ref ← goroutines w !! i;
      w' ← processDelivery env ref w;
      Some {| heap := heap w';
              dm := dm w';
              goroutines := delete i (goroutines w');
              network := network w' |}
  | OpRetryTick clockAt range => retryFailedEvents clockAt range w
  | OpForceRetry eventID clockAt range =>
      ForceRetry eventID clockAt range (Some w) ≫= snd
  | OpForceRetryStatement st ref => ForceRetry_statement st ref w
  end.

(** A visit order handed to a loop over the pending map lists the map's
    entries.  The pointer held by the second half of [ForceRetry] was found
    under a non-empty id, which the record carries; the state does not
    remember the lookups made nor the statements already run, and every
    statement on every record with a non-empty id is let through: the runs
    are those of the program and possibly more, never fewer. *)
Definition admissible (w : World) (op : Op) : Prop :=
  match op with
  | OpRetryTick _ range | OpForceRetry _ _ range =>
      range ≡ₚ map_to_list (pendingEvents (dm w))
  | OpForceRetryStatement _ ref =>
      exists event, heap w !! ref = Some event /\ ID event <> ""
  | _ => True
  end.

Definition step (w : World) (op : Op) (w' : World) : Prop :=
  admissible w op /\ exec op w = Some w'.

(** Runs in which every step also meets the side condition [ok]. *)
Inductive run (ok : World -> Op -> Prop) : World -> list Op -> World -> Prop :=
| run_nil w : run ok w [] w
| run_cons w op w1 ops w2 :
    ok w op -> step w op w1 -> run ok w1 ops w2 -> run ok w (op :: ops) w2.

(** The id under which [DeliverEvent] stores the record at [ref]. *)
Definition stored_id (event : DeliveryEvent) (idnow : Z) : string :=
  if decide (ID event = "") then Sprintf_id (UserID event) idnow else ID event.

(** [op] is a submission that stores a record under [id]. *)
Definition submits (id : string) (w : World) (op : Op) : Prop :=
  match op with
  | OpDeliverEvent ref _ idnow =>
      exists event, heap w !! ref = Some event /\ stored_id event idnow = id
  | _ => False
  end.

(** Every entry of the pending map points to an allocated record. *)
Definition allocated (w : World) : Prop :=
  map_Forall (fun _ ref => is_Some (heap w !! ref)) (pendingEvents (dm w)).

(** The records tracked in the pending map are filed under their own,
    non-empty id and are pending. *)
Definition tracked_pending (w : World) : Prop :=
  forall id ref, pendingEvents (dm w) !! id = Some ref ->
    exists event, heap w !! ref = Some event /\ ID event = id /\ id <> "" /\
                  Status event = DeliveryStatusPending.

(** Running a list of operations in sequence. *)
Definition exec_all (ops : list Op) (w : World) : option World :=
  foldl (fun ow op => ow ≫= exec op) (Some w) ops.

Definition initial : World :=
  {| heap := ∅; dm := InitDeliveryManager; goroutines := []; network := [] |}.

(** The channel names of the results of one cycle. *)
Definition dispatched (env : Env) (event : DeliveryEvent) : list string :=
  (fun run => Channel run.1) <$> dispatch env event.

(** The entries of the pending map selected by a sweep. *)
Definition eligible (w : World) (clockAt : string -> Z) (entry : string * loc)
  : bool :=
  match heap w !! entry.2 with
  | Some event => retry_condition (dm w) (clockAt entry.1) event
  | None => false
  end.

(** The entries of the pending map that pass the tenant filter. *)
Definition matches (w : World) (userID : string) (entry : string * loc) : bool :=
  match heap w !! entry.2 with
  | Some event => bool_decide (userID = "") || bool_decide (UserID event = userID)
  | None => false
  end.

(** ** Concrete scenarios *)

Module Scenario.
(** A record as a producer builds it, already carrying its id. *)
Definition receipt : DeliveryEvent :=
  mkDeliveryEvent "evt-1" "u1" "tok" "Message" "{}" "" 0 0
    DeliveryStatusPending "".

Definition times (channel : string) : Z * Z := (1000, 6000000).

(** User webhook configured and answering, broker enabled but down. *)
Definition broker_down : Env :=
  {| getUserWebhookUrl := fun _ => "http://hook.example";
     globalWebhook := "";
     rabbitEnabled := true;
     GetHTTPClient := fun _ => true;
     userinfocache := ∅;
     respond := fun call =>
       match call with
       | PublishSync _ _ _ _ => Some "broker down"
       | _ => None
       end;
     ctxDone := false;
     clock := times |}.

(** Same channels, everything answers. *)
Definition all_up : Env :=
  {| getUserWebhookUrl := fun _ => "http://hook.example";
     globalWebhook := "";
     rabbitEnabled := true;
     GetHTTPClient := fun _ => true;
     userinfocache := ∅;
     respond := fun _ => None;
     ctxDone := false;
     clock := times |}.

(** No channel enabled at all. *)
Definition no_channel : Env :=
  {| getUserWebhookUrl := fun _ => "";
     globalWebhook := "";
     rabbitEnabled := false;
     GetHTTPClient := fun _ => true;
     userinfocache := ∅;
     respond := fun _ => None;
     ctxDone := false;
     clock := times |}.

(** Both webhooks configured, no HTTP client registered for any user. *)
Definition no_client : Env :=
  {| getUserWebhookUrl := fun _ => "http://hook.example";
     globalWebhook := "http://global.example";
     rabbitEnabled := false;
     GetHTTPClient := fun _ => false;
     userinfocache := ∅;
     respond := fun _ => None;
     ctxDone := false;
     clock := times |}.

(** The record is tracked at address 1 with [attempts] failed cycles
    behind it. *)
Definition tracked (attempts : Z) : World :=
  {| heap := {[ 1%positive := set_AttemptCount attempts receipt ]};
     dm := {| pendingEvents := {[ "evt-1" := 1%positive ]};
              maxRetries := 3;
              retryBackoff := 2 * second;
              timeout := 10 * second |};
     goroutines := [1%positive];
     network := [] |}.

(** The record built by the producer, not yet submitted. *)
Definition built : World :=
  {| heap := {[ 1%positive := receipt ]};
     dm := InitDeliveryManager;
     goroutines := [];
     network := [] |}.

(** The state after the third failed cycle of [tracked 2]. *)
Definition exhausted : World :=
  {| heap := {[ 1%positive :=
                  set_LastError "Max retries exceeded"
                    (set_Status DeliveryStatusFailed
                       (set_AttemptCount 3 receipt)) ]};
     dm := InitDeliveryManager;
     goroutines := [];
     network := [PostForm "http://hook.example"
                   [("jsonData", "{}"); ("token", "tok"); ("instanceName", "")];
                 PublishSync "{}" "Message" "u1" "tok"] |}.

Definition range1 : list (string * loc) := [("evt-1", 1%positive)].

(** Three tracked records, two of tenant u1 and one of tenant u2. *)
Definition of_tenant (id userID : string) : DeliveryEvent :=
  mkDeliveryEvent id userID "tok" "Message" "{}" "" 0 0
    DeliveryStatusPending "".

Definition listing : World :=
  {| heap := {[ 1%positive := of_tenant "a" "u1";
                2%positive := of_tenant "b" "u2";
                3%positive := of_tenant "c" "u1" ]};
     dm := {| pendingEvents := {[ "a" := 1%positive; "b" := 2%positive;
                                  "c" := 3%positive ]};
              maxRetries := 3;
              retryBackoff := 2 * second;
              timeout := 10 * second |};
     goroutines := [];
     network := [] |}.

Definition range3 : list (string * loc) :=
  [("c", 3%positive); ("b", 2%positive); ("a", 1%positive)].


(** The first cycle is slow: three sweeps pass before it completes, each
    spawning one more cycle for the same record; then all four fail. *)
Definition overlapping_cycles : list Op :=
  [OpNew receipt;
   OpDeliverEvent 1 0 5;
   OpRetryTick (fun _ => 3 * second) range1;
   OpRetryTick (fun _ => 5 * second) range1;
   OpRetryTick (fun _ => 7 * second) range1;
   OpProcessDelivery broker_down 0;
   OpProcessDelivery broker_down 0;
   OpProcessDelivery broker_down 0;
   OpProcessDelivery broker_down 0].
End Scenario.

(** ** More of the manager's surface *)

(** [(s *server) DeliveryStatus]: the overall status endpoint (the plain
    name is taken by the status type).  Its body is a map of five fixed
    keys, here a record. *)
Record StatusReport : Type := mkStatusReport {
  status_text : string;
  pending_events : Z;
  max_retries : Z;
  timeout_ms : Z;
  retry_backoff_ms : Z
}.

Inductive StatusBody : Type :=
| StatusError (msg : string)
| StatusRunning (report : StatusReport).

Definition server_DeliveryStatus (deliveryManager : option World)
  : Z * StatusBody :=
  match deliveryManager with
  | None =>
      (StatusServiceUnavailable, StatusError "Delivery manager not initialized")
  | Some w =>
      (StatusOK,
       StatusRunning
         {| status_text := "running";
            pending_events := GetPendingEventsCount w;
            max_retries := maxRetries (dm w);
            timeout_ms := Milliseconds (timeout (dm w));
            retry_backoff_ms := Milliseconds (retryBackoff (dm w)) |})
  end.

(** Consecutive cycles of the record at [ref], one per environment of the
    list, each run to its critical section before the next starts. *)
Definition cycles (envs : list Env) (ref : loc) (w : World) : option World :=
  foldl (fun ow env => ow ≫= processDelivery env ref) (Some w) envs.

(** Some dispatched adapter reports a failure. *)
Definition failing (env : Env) (event : DeliveryEvent) : Prop :=
  exists r, r ∈ (dispatch env event).*1 /\ Success r = false.

(** Every spawned goroutine holds the address of an allocated record. *)
Definition running_allocated (w : World) : Prop :=
  Forall (fun ref => is_Some (heap w !! ref)) (goroutines w).

(** The fields of a record that the adapters read. *)
Definition same_content (e1 e2 : DeliveryEvent) : Prop :=
  UserID e1 = UserID e2 /\ Token e1 = Token e2 /\
  EventType e1 = EventType e2 /\ JsonData e1 = JsonData e2 /\
  FilePath e1 = FilePath e2.

(** What an adapter run may look like: at most one outgoing call; a
    success only with a call that returned no error; with a call that
    returned an error, a failure carrying that error; without a call, a
    failure. *)
Definition sound_attempt (env : Env) (attempt : DeliveryResult * list NetCall)
  : Prop :=
  (attempt.2 = [] /\ Success attempt.1 = false /\ Error attempt.1 <> "") \/
  (exists call,
      attempt.2 = [call] /\
      ((respond env call = None /\ Success attempt.1 = true /\
        Error attempt.1 = "") \/
       (exists msg, respond env call = Some msg /\ Success attempt.1 = false /\
                    Error attempt.1 = msg))).

(** The record written and whether the id is removed by the critical
    section, as functions of the aggregate, the retry limit and the record
    read ([update_status_outcome] relates them to [update_status]). *)
Definition outcome_record (allSuccess : bool) (limit : Z) (event : DeliveryEvent)
  : DeliveryEvent :=
  if allSuccess then set_Status DeliveryStatusDelivered event
  else if decide (limit <= Int64.wrap (AttemptCount event + 1)) then
    set_LastError "Max retries exceeded"
      (set_Status DeliveryStatusFailed
         (set_AttemptCount (Int64.wrap (AttemptCount event + 1)) event))
  else set_AttemptCount (Int64.wrap (AttemptCount event + 1)) event.

Definition outcome_ended (allSuccess : bool) (limit : Z) (event : DeliveryEvent)
  : bool :=
  allSuccess || bool_decide (limit <= Int64.wrap (AttemptCount event + 1)).

(** ** assertColorFromInt (helpers.go)

    [uint32(x)] keeps the low 32 bits of the 64-bit [int]. *)
Definition uint32 (z : Z) : Z := z mod 2 ^ 32.

Definition assertColorFromInt (color : Z) : Z :=
  if decide (0 < color) then uint32 color
  else uint32 (Int64.wrap (Int64.wrap (4294967295 + color) + 1)).

(** ** More concrete scenarios *)

Module Cases.
(** Two records built without an id by the same tenant. *)
Definition anonymous (body : string) : DeliveryEvent :=
  mkDeliveryEvent "" "u1" "tok" "Message" body "" 0 0
    DeliveryStatusPending "".

Definition two_built : World :=
  {| heap := {[ 1%positive := anonymous "{1}"; 2%positive := anonymous "{2}" ]};
     dm := InitDeliveryManager;
     goroutines := [];
     network := [] |}.

(** A record with a file to deliver. *)
Definition with_file : DeliveryEvent :=
  mkDeliveryEvent "evt-f" "u1" "tok" "Message" "{}" "/tmp/a.ogg" 0 0
    DeliveryStatusPending "".

(** The id "evt-1" was submitted twice: the record at 1 is the earlier
    submission, whose cycle is still in flight; the record at 2 replaced
    it in the pending map. *)
Definition resubmitted : World :=
  {| heap := {[ 1%positive := Scenario.receipt;
                2%positive := set_CreatedAt 50 Scenario.receipt ]};
     dm := {| pendingEvents := {[ "evt-1" := 2%positive ]};
              maxRetries := 3;
              retryBackoff := 2 * second;
              timeout := 10 * second |};
     goroutines := [1%positive; 2%positive];
     network := [] |}.

Definition submit_one : list Op :=
  [OpNew Scenario.receipt; OpDeliverEvent 1 0 5].
End Cases.

(** * Properties *)

(** ** Machine integers *)

Lemma wrap_in_range z : Int64.in_range z -> Int64.wrap z = z.
Proof.
  unfold Int64.in_range, Int64.min_int, Int64.max_int, Int64.wrap. intros Hz.
  rewrite Z.mod_small; lia.
Qed.

Lemma wrap_succ z :
  Int64.min_int <= z < Int64.max_int -> Int64.wrap (z + 1) = z + 1.
Proof.
  intros Hz. apply wrap_in_range. unfold Int64.in_range, Int64.min_int, Int64.max_int in *. lia.
Qed.

Lemma clamp_gt z b :
  Int64.min_int <= b < Int64.max_int -> (b < Int64.clamp z <-> b < z).
Proof. unfold Int64.clamp, Int64.min_int, Int64.max_int. lia. Qed.

(** ** The collector *)

Lemma collect_from acc ok results :
  foldl collect_step (acc, ok) results =
  (acc ++ results, ok && forallb Success results).
Proof.
  revert acc ok. induction results as [|r results IH]; intros acc ok;
    cbn [foldl forallb].
  - by rewrite app_nil_r, andb_true_r.
  - change (collect_step (acc, ok) r)
      with (acc ++ [r], if Success r then ok else false).
    rewrite IH, <- app_assoc. simpl.
    f_equal. destruct (Success r), ok; reflexivity.
Qed.

Lemma collect_spec results :
  collect results = (results, forallb Success results).
Proof. unfold collect. by rewrite collect_from. Qed.

Lemma forallb_Success results :
  forallb Success results = true <->
  forall r, r ∈ results -> Success r = true.
Proof.
  rewrite forallb_forall. split; intros H r Hr; apply H.
  - by apply list_elem_of_In.
  - by apply list_elem_of_In.
Qed.

Lemma forallb_Success_false results :
  forallb Success results = false <->
  exists r, r ∈ results /\ Success r = false.
Proof.
  induction results as [|r results IH]; simpl.
  - split; [done | intros (r & Hr & _); by apply elem_of_nil in Hr].
  - rewrite andb_false_iff, IH. split.
    + intros [Hr | (r' & Hr' & Hs)].
      * exists r. split; [left | done].
      * exists r'. split; [by right | done].
    + intros (r' & Hr' & Hs). apply elem_of_cons in Hr' as [-> | Hr'].
      * by left.
      * right. by exists r'.
Qed.

(** The aggregate does not depend on the order in which the adapters
    complete. *)
Lemma collect_Permutation results1 results2 :
  results1 ≡ₚ results2 -> (collect results1).2 = (collect results2).2.
Proof.
  rewrite !collect_spec. simpl. intros Hp.
  induction Hp; simpl; try congruence.
  destruct (Success x), (Success y); reflexivity.
Qed.

(** ** One fan-out cycle *)

Lemma processDelivery_unfold env ref w event :
  heap w !! ref = Some event ->
  processDelivery env ref w =
  Some (update_status (forallb Success (dispatch env event).*1) ref event
          (mkWorld (heap w) (dm w) (goroutines w)
             (network w ++ concat (dispatch env event).*2))).
Proof.
  intros Hev. unfold processDelivery. rewrite Hev. simpl.
  by rewrite collect_spec.
Qed.

Lemma update_status_success ref event w :
  update_status true ref event w =
  {| heap := <[ref := set_Status DeliveryStatusDelivered event]> (heap w);
     dm := {| pendingEvents := delete (ID event) (pendingEvents (dm w));
              maxRetries := maxRetries (dm w);
              retryBackoff := retryBackoff (dm w);
              timeout := timeout (dm w) |};
     goroutines := goroutines w;
     network := network w |}.
Proof. reflexivity. Qed.

Lemma update_status_exhausted ref event w :
  maxRetries (dm w) <= Int64.wrap (AttemptCount event + 1) ->
  update_status false ref event w =
  {| heap := <[ref := set_LastError "Max retries exceeded"
                        (set_Status DeliveryStatusFailed
                           (set_AttemptCount (Int64.wrap (AttemptCount event + 1))
                              event))]> (heap w);
     dm := {| pendingEvents := delete (ID event) (pendingEvents (dm w));
              maxRetries := maxRetries (dm w);
              retryBackoff := retryBackoff (dm w);
              timeout := timeout (dm w) |};
     goroutines := goroutines w;
     network := network w |}.
Proof.
  intros Hmax. unfold update_status. simpl.
  destruct (decide _) as [_ | Hn]; [reflexivity | lia].
Qed.

Lemma update_status_retry ref event w :
  Int64.wrap (AttemptCount event + 1) < maxRetries (dm w) ->
  update_status false ref event w =
  {| heap := <[ref := set_AttemptCount (Int64.wrap (AttemptCount event + 1))
                        event]> (heap w);
     dm := dm w;
     goroutines := goroutines w;
     network := network w |}.
Proof.
  intros Hmax. unfold update_status. simpl.
  destruct (decide _) as [Hn | _]; [lia | reflexivity].
Qed.




(** The failing branch of the critical section. *)
Lemma processDelivery_failing env ref w event :
  heap w !! ref = Some event ->
  (exists r, r ∈ (dispatch env event).*1 /\ Success r = false) ->
  processDelivery env ref w =
  Some (update_status false ref event
          (mkWorld (heap w) (dm w) (goroutines w)
             (network w ++ concat (dispatch env event).*2))).
Proof.
  intros Hev Hfail. rewrite (processDelivery_unfold _ _ _ _ Hev).
  apply forallb_Success_false in Hfail. by rewrite Hfail.
Qed.

Lemma processDelivery_succeeding env ref w event :
  heap w !! ref = Some event ->
  (forall r, r ∈ (dispatch env event).*1 -> Success r = true) ->
  processDelivery env ref w =
  Some (update_status true ref event
          (mkWorld (heap w) (dm w) (goroutines w)
             (network w ++ concat (dispatch env event).*2))).
Proof.
  intros Hev Hok. rewrite (processDelivery_unfold _ _ _ _ Hev).
  apply forallb_Success in Hok. by rewrite Hok.
Qed.

(** C2, as the code has it: a failing cycle increments the attempt count;
    when the count reaches [maxRetries] the status becomes Failed, the last
    error becomes the fixed text "Max retries exceeded" and the id leaves
    the pending map; otherwise only the attempt count changes, so status
    and last error stay as they were and the id stays in the map. *)
Theorem processDelivery_failure env ref w event :
  heap w !! ref = Some event ->
  (exists r, r ∈ (dispatch env event).*1 /\ Success r = false) ->
  exists w',
    processDelivery env ref w = Some w' /\
    (maxRetries (dm w) <= Int64.wrap (AttemptCount event + 1) ->
     heap w' !! ref =
       Some (set_LastError "Max retries exceeded"
               (set_Status DeliveryStatusFailed
                  (set_AttemptCount (Int64.wrap (AttemptCount event + 1)) event))) /\
     pendingEvents (dm w') = delete (ID event) (pendingEvents (dm w)) /\
     GetEventStatus (ID event) w' = (None, false)) /\
    (Int64.wrap (AttemptCount event + 1) < maxRetries (dm w) ->
     heap w' !! ref =
       Some (set_AttemptCount (Int64.wrap (AttemptCount event + 1)) event) /\
     pendingEvents (dm w') = pendingEvents (dm w)).
Proof.
  intros Hev Hfail. rewrite (processDelivery_failing _ _ _ _ Hev Hfail).
  eexists. split; [reflexivity |]. split; intros Hmax.
  - rewrite update_status_exhausted by done. simpl.
    rewrite lookup_insert_eq. split; [reflexivity |]. split; [reflexivity |].
    unfold GetEventStatus. simpl. by rewrite lookup_delete_eq.
  - rewrite update_status_retry by done. simpl.
    by rewrite lookup_insert_eq.
Qed.

Lemma processDelivery_failure_witness :
  heap (Scenario.tracked 2) !! 1%positive
    = Some (set_AttemptCount 2 Scenario.receipt) /\
  (exists r, r ∈ (dispatch Scenario.broker_down
                    (set_AttemptCount 2 Scenario.receipt)).*1 /\
             Success r = false) /\
  exists w',
    processDelivery Scenario.broker_down 1 (Scenario.tracked 2) = Some w' /\
    heap w' !! 1%positive =
      Some (set_LastError "Max retries exceeded"
              (set_Status DeliveryStatusFailed
                 (set_AttemptCount 3 Scenario.receipt))).
Proof.
  assert (Hev : heap (Scenario.tracked 2) !! 1%positive
                = Some (set_AttemptCount 2 Scenario.receipt)) by reflexivity.
  assert (Hfail : exists r,
             r ∈ (dispatch Scenario.broker_down
                    (set_AttemptCount 2 Scenario.receipt)).*1 /\
             Success r = false).
  { apply forallb_Success_false. vm_compute. reflexivity. }
  split; [exact Hev |]. split; [exact Hfail |].
  destruct (processDelivery_failure Scenario.broker_down 1 _ _ Hev Hfail)
    as (w' & Hrun & Hmax & _).
  exists w'. split; [exact Hrun |].
  destruct Hmax as (Hlook & _); [vm_compute; discriminate | exact Hlook].
Defined.

(** C2 as stated fails: in the cycle that exhausts the retries the last
    error is the fixed text, not the error of any channel result, and in a
    failing cycle before that the last error is not written at all. *)
Lemma lastError_not_from_result :
  (exists w' event',
     processDelivery Scenario.broker_down 1 (Scenario.tracked 2) = Some w' /\
     heap w' !! 1%positive = Some event' /\
     Status event' = DeliveryStatusFailed /\
     LastError event' = "Max retries exceeded" /\
     forall r, r ∈ (dispatch Scenario.broker_down
                      (set_AttemptCount 2 Scenario.receipt)).*1 ->
               Success r = false ->
               Error r = "broker down" /\ LastError event' <> Error r) /\
  (exists w' event',
     processDelivery Scenario.broker_down 1 (Scenario.tracked 0) = Some w' /\
     heap w' !! 1%positive = Some event' /\
     Status event' = DeliveryStatusPending /\
     LastError event' = "" /\
     forall r, r ∈ (dispatch Scenario.broker_down Scenario.receipt).*1 ->
               Success r = false ->
               Error r = "broker down" /\ LastError event' <> Error r).
Proof.
  split.
  - eexists _, _. split; [vm_compute; reflexivity |].
    split; [reflexivity |]. split; [reflexivity |]. split; [reflexivity |].
    intros r Hr Hs. vm_compute in Hr.
    apply elem_of_cons in Hr as [-> | Hr]; [discriminate Hs |].
    apply elem_of_cons in Hr as [-> | Hr]; [| by apply elem_of_nil in Hr].
    split; [reflexivity | discriminate].
  - eexists _, _. split; [vm_compute; reflexivity |].
    split; [reflexivity |]. split; [reflexivity |]. split; [reflexivity |].
    intros r Hr Hs. vm_compute in Hr.
    apply elem_of_cons in Hr as [-> | Hr]; [discriminate Hs |].
    apply elem_of_cons in Hr as [-> | Hr]; [| by apply elem_of_nil in Hr].
    split; [reflexivity | discriminate].
Qed.

(** ** Submission *)

Lemma DeliverEvent_unfold ref now idnow w event :
  heap w !! ref = Some event ->
  let event' :=
    set_ID (stored_id event idnow)
      (set_Status DeliveryStatusPending (set_CreatedAt now event)) in
  DeliverEvent ref now idnow w =
  Some {| heap := <[ref := event']> (heap w);
          dm := {| pendingEvents := <[stored_id event idnow := ref]>
                                      (pendingEvents (dm w));
                   maxRetries := maxRetries (dm w);
                   retryBackoff := retryBackoff (dm w);
                   timeout := timeout (dm w) |};
          goroutines := goroutines w ++ [ref];
          network := network w |}.
Proof.
  intros Hev. unfold DeliverEvent, stored_id. rewrite Hev. simpl.
  destruct (decide (ID event = "")) as [He | Hne]; simpl; [reflexivity |].
  destruct event; reflexivity.
Qed.

Lemma Sprintf_id_nonempty userID nanos : Sprintf_id userID nanos <> "".
Proof.
  unfold Sprintf_id. destruct userID; simpl; discriminate.
Qed.

Lemma stored_id_nonempty event idnow : stored_id event idnow <> "".
Proof.
  unfold stored_id. destruct (decide _); [apply Sprintf_id_nonempty | done].
Qed.




(** The per-cycle bound does not extend to cycles of one record that
    overlap: the sweep re-selects a record whose earlier cycle is still in
    flight, and each of the spawned cycles adds one. *)
Lemma overlapping_cycles_overshoot :
  exists w event,
    exec_all Scenario.overlapping_cycles initial = Some w /\
    heap w !! 1%positive = Some event /\
    AttemptCount event = 4 /\
    maxRetries (dm w) = 3.
Proof.
  eexists _, _. split; [vm_compute; reflexivity |].
  split; [reflexivity |]. split; reflexivity.
Qed.

(** ** What each operation does to the pending map *)

Lemma DeliverEvent_inv ref now idnow w w' :
  DeliverEvent ref now idnow w = Some w' ->
  exists event,
    heap w !! ref = Some event /\
    heap w' = <[ref := set_ID (stored_id event idnow)
                        (set_Status DeliveryStatusPending
                           (set_CreatedAt now event))]> (heap w) /\
    pendingEvents (dm w') = <[stored_id event idnow := ref]> (pendingEvents (dm w)) /\
    goroutines w' = goroutines w ++ [ref].
Proof.
  intros Hrun. destruct (heap w !! ref) as [event|] eqn:Hev.
  - rewrite (DeliverEvent_unfold _ _ _ _ _ Hev) in Hrun.
    injection Hrun as <-. by exists event.
  - unfold DeliverEvent in Hrun. by rewrite Hev in Hrun.
Qed.

Lemma processDelivery_inv env ref w w' :
  processDelivery env ref w = Some w' ->
  exists event,
    heap w !! ref = Some event /\
    w' = update_status (forallb Success (dispatch env event).*1) ref event
           (mkWorld (heap w) (dm w) (goroutines w)
              (network w ++ concat (dispatch env event).*2)).
Proof.
  intros Hrun. destruct (heap w !! ref) as [event|] eqn:Hev.
  - rewrite (processDelivery_unfold _ _ _ _ Hev) in Hrun.
    injection Hrun as <-. by exists event.
  - unfold processDelivery in Hrun. by rewrite Hev in Hrun.
Qed.

(** The three outcomes of the critical section. *)
Lemma update_status_cases ok ref event w :
  let w' := update_status ok ref event w in
  goroutines w' = goroutines w /\ network w' = network w /\
  maxRetries (dm w') = maxRetries (dm w) /\
  ((heap w' = <[ref := set_Status DeliveryStatusDelivered event]> (heap w) /\
    pendingEvents (dm w') = delete (ID event) (pendingEvents (dm w))) \/
   (heap w' = <[ref := set_LastError "Max retries exceeded"
                         (set_Status DeliveryStatusFailed
                            (set_AttemptCount
                               (Int64.wrap (AttemptCount event + 1)) event))]>
                (heap w) /\
    pendingEvents (dm w') = delete (ID event) (pendingEvents (dm w))) \/
   (heap w' = <[ref := set_AttemptCount
                         (Int64.wrap (AttemptCount event + 1)) event]> (heap w) /\
    dm w' = dm w)).
Proof.
  unfold update_status. destruct ok; simpl.
  - split; [done |]. split; [done |]. split; [done |]. by left.
  - destruct (decide _); simpl.
    + split; [done |]. split; [done |]. split; [done |]. right. by left.
    + split; [done |]. split; [done |]. split; [done |]. right. by right.
Qed.

Lemma retryFailedEvents_inv clockAt range w w' :
  retryFailedEvents clockAt range w = Some w' ->
  exists eventsToRetry,
    select_retries (dm w) (heap w) clockAt range [] = Some eventsToRetry /\
    w' = mkWorld (heap w) (dm w) (goroutines w ++ eventsToRetry) (network w).
Proof.
  unfold retryFailedEvents. intros Hrun.
  destruct (select_retries _ _ _ _ _) as [sel|]; [| done].
  simpl in Hrun. injection Hrun as <-. by exists sel.
Qed.

Lemma GetEventStatus_Some eventID w ref :
  pendingEvents (dm w) !! eventID = Some ref ->
  GetEventStatus eventID w = (Some ref, true).
Proof. intros H. unfold GetEventStatus. by rewrite H. Qed.

Lemma GetEventStatus_None eventID w :
  pendingEvents (dm w) !! eventID = None ->
  GetEventStatus eventID w = (None, false).
Proof. intros H. unfold GetEventStatus. by rewrite H. Qed.

(** [ForceRetry] with an id: the tracked record is reset and a goroutine
    is spawned for it; an id that is not tracked is answered with 404. *)
Lemma ForceRetry_tracked eventID clockAt range w ref event :
  eventID <> "" ->
  pendingEvents (dm w) !! eventID = Some ref ->
  heap w !! ref = Some event ->
  ForceRetry eventID clockAt range (Some w) =
  Some (mkResponse StatusOK (BodyText ("Retry triggered for event: " +:+ eventID)),
        Some {| heap := <[ref := set_Status DeliveryStatusPending
                                   (set_AttemptCount 0 event)]> (heap w);
                dm := dm w;
                goroutines := goroutines w ++ [ref];
                network := network w |}).
Proof.
  intros Hid Hp Hev. unfold ForceRetry.
  destruct (decide (eventID = "")); [done |].
  rewrite (GetEventStatus_Some _ _ _ Hp), Hev. reflexivity.
Qed.

Lemma ForceRetry_untracked eventID clockAt range w :
  eventID <> "" ->
  pendingEvents (dm w) !! eventID = None ->
  ForceRetry eventID clockAt range (Some w) =
  Some (mkResponse StatusNotFound (BodyText "Event not found"), Some w).
Proof.
  intros Hid Hp. unfold ForceRetry.
  destruct (decide (eventID = "")); [done |].
  by rewrite (GetEventStatus_None _ _ Hp).
Qed.

Lemma ForceRetry_inv eventID clockAt range w resp w' :
  ForceRetry eventID clockAt range (Some w) = Some (resp, Some w') ->
  (eventID = "" /\ retryFailedEvents clockAt range w = Some w') \/
  (eventID <> "" /\ pendingEvents (dm w) !! eventID = None /\ w' = w) \/
  (eventID <> "" /\ exists ref event,
      pendingEvents (dm w) !! eventID = Some ref /\
      heap w !! ref = Some event /\
      w' = {| heap := <[ref := set_Status DeliveryStatusPending
                                 (set_AttemptCount 0 event)]> (heap w);
              dm := dm w;
              goroutines := goroutines w ++ [ref];
              network := network w |}).
Proof.
  intros Hrun. destruct (decide (eventID = "")) as [-> | Hid].
  - left. split; [done |]. unfold ForceRetry in Hrun. simpl in Hrun.
    destruct (retryFailedEvents clockAt range w); simpl in Hrun; [| done].
    by injection Hrun as _ <-.
  - right. destruct (pendingEvents (dm w) !! eventID) as [ref|] eqn:Hp.
    + right. split; [done |].
      destruct (heap w !! ref) as [event|] eqn:Hev.
      * rewrite (ForceRetry_tracked _ _ _ _ _ _ Hid Hp Hev) in Hrun.
        injection Hrun as _ <-. by exists ref, event.
      * unfold ForceRetry in Hrun.
        destruct (decide (eventID = "")); [done |].
        rewrite (GetEventStatus_Some _ _ _ Hp), Hev in Hrun. done.
    + left. rewrite (ForceRetry_untracked _ _ _ _ Hid Hp) in Hrun.
      by injection Hrun as _ <-.
Qed.

Lemma ForceRetry_statement_inv st ref event w w' :
  heap w !! ref = Some event ->
  ForceRetry_statement st ref w = Some w' ->
  w' = {| heap := match st with
                  | SetAttemptCount => <[ref := set_AttemptCount 0 event]> (heap w)
                  | SetStatus =>
                      <[ref := set_Status DeliveryStatusPending event]> (heap w)
                  | Spawn => heap w
                  end;
          dm := dm w;
          goroutines := match st with
                        | Spawn => goroutines w ++ [ref]
                        | _ => goroutines w
                        end;
          network := network w |}.
Proof.
  intros Hev Hrun.
  destruct st; cbn in Hrun; rewrite ?Hev in Hrun; cbn in Hrun;
    by injection Hrun as <-.
Qed.

Lemma ForceRetry_statement_dm st ref w w' :
  ForceRetry_statement st ref w = Some w' ->
  dm w' = dm w /\ network w' = network w.
Proof.
  intros Hrun.
  destruct st; cbn in Hrun;
    [destruct (heap w !! ref); [| done] ..|];
    cbn in Hrun; by injection Hrun as <-.
Qed.


(** An absent id stays absent under every operation but a submission that
    stores a record under it. *)
Lemma step_absent id w op w' :
  step w op w' ->
  ~ submits id w op ->
  pendingEvents (dm w) !! id = None ->
  pendingEvents (dm w') !! id = None.
Proof.
  intros [_ Hexec] Hsub Habs.
  destruct op as [e | ref now idnow | env i | c r | eid c r | st ref];
    cbn [exec] in Hexec;
    [| | | | | by apply ForceRetry_statement_dm in Hexec as [-> _]].
  - by injection Hexec as <-.
  - apply DeliverEvent_inv in Hexec as (event & Hev & _ & Hp & _).
    rewrite Hp. rewrite lookup_insert_ne; [done |].
    intros Heq. apply Hsub. simpl. by exists event.
  - destruct (goroutines w !! i) as [ref|]; [| done]. simpl in Hexec.
    destruct (processDelivery env ref w) as [w1|] eqn:Hrun; [| done].
    simpl in Hexec. injection Hexec as <-. simpl.
    apply processDelivery_inv in Hrun as (event & _ & ->).
    pose proof (update_status_cases
      (forallb Success (dispatch env event).*1) ref event
      (mkWorld (heap w) (dm w) (goroutines w)
         (network w ++ concat (dispatch env event).*2))) as Hc.
    simpl in Hc. destruct Hc as (_ & _ & _ & [[_ Hp] | [[_ Hp] | [_ Hp]]]).
    + rewrite Hp. rewrite lookup_delete. by destruct (decide _).
    + rewrite Hp. rewrite lookup_delete. by destruct (decide _).
    + by rewrite Hp.
  - apply retryFailedEvents_inv in Hexec as (sel & _ & ->). done.
  - destruct (ForceRetry eid c r (Some w)) as [[resp [w1|]]|] eqn:Hrun;
      cbn in Hexec; try done.
    injection Hexec as ->.
    apply ForceRetry_inv in Hrun as [[_ Hrun] | [(_ & _ & ->) | (_ & ref & event & _ & _ & ->)]];
      [| done | done].
    apply retryFailedEvents_inv in Hrun as (sel & _ & ->). done.
Qed.

Lemma run_absent id w ops w' :
  run (fun w op => ~ submits id w op) w ops w' ->
  pendingEvents (dm w) !! id = None ->
  pendingEvents (dm w') !! id = None.
Proof.
  induction 1 as [w | w op w1 ops w2 Hok Hstep _ IH]; [done |].
  intros Habs. apply IH. by apply (step_absent id w op w1).
Qed.

(** ** The tracked records are pending *)

Lemma tracked_pending_initial : tracked_pending initial.
Proof. intros id ref Hp. simpl in Hp. by rewrite lookup_empty in Hp. Qed.

Lemma tracked_pending_DeliverEvent ref now idnow w w' :
  DeliverEvent ref now idnow w = Some w' ->
  tracked_pending w -> tracked_pending w'.
Proof.
  intros Hrun Hinv id ref' Hp'.
  apply DeliverEvent_inv in Hrun as (event & Hev & Hh & Hp & _).
  rewrite Hp in Hp'. rewrite Hh.
  destruct (decide (stored_id event idnow = id)) as [<- | Hne].
  - rewrite lookup_insert_eq in Hp'. injection Hp' as <-.
    rewrite lookup_insert_eq. eexists. split; [reflexivity |].
    split; [reflexivity |]. split; [apply stored_id_nonempty | reflexivity].
  - rewrite lookup_insert_ne in Hp' by done.
    destruct (Hinv _ _ Hp') as (event' & Hev' & Hid & Hnonempty & Hst).
    destruct (decide (ref = ref')) as [<- | Hrefs].
    + exfalso. apply Hne. rewrite Hev in Hev'. injection Hev' as <-.
      unfold stored_id. destruct (decide (ID event = "")); congruence.
    + rewrite lookup_insert_ne by done. by exists event'.
Qed.

Lemma tracked_pending_update_status ok ref event w :
  heap w !! ref = Some event ->
  tracked_pending w -> tracked_pending (update_status ok ref event w).
Proof.
  intros Hev Hinv id ref' Hp'.
  destruct (update_status_cases ok ref event w)
    as (_ & _ & _ & [[Hh Hp] | [[Hh Hp] | [Hh Hp]]]).
  - rewrite Hp in Hp'. rewrite Hh.
    apply lookup_delete_Some in Hp' as [Hne Hp'].
    destruct (Hinv _ _ Hp') as (event' & Hev' & Hid & Hnonempty & Hst).
    destruct (decide (ref = ref')) as [<- | Hrefs].
    + rewrite Hev in Hev'. injection Hev' as <-. done.
    + rewrite lookup_insert_ne by done. by exists event'.
  - rewrite Hp in Hp'. rewrite Hh.
    apply lookup_delete_Some in Hp' as [Hne Hp'].
    destruct (Hinv _ _ Hp') as (event' & Hev' & Hid & Hnonempty & Hst).
    destruct (decide (ref = ref')) as [<- | Hrefs].
    + rewrite Hev in Hev'. injection Hev' as <-. done.
    + rewrite lookup_insert_ne by done. by exists event'.
  - rewrite Hp in Hp'. rewrite Hh.
    destruct (Hinv _ _ Hp') as (event' & Hev' & Hid & Hnonempty & Hst).
    destruct (decide (ref = ref')) as [<- | Hrefs].
    + rewrite Hev in Hev'. injection Hev' as <-.
      rewrite lookup_insert_eq. eexists. split; [reflexivity |]. done.
    + rewrite lookup_insert_ne by done. by exists event'.
Qed.

Lemma tracked_pending_ForceRetry eventID clockAt range w resp w' :
  ForceRetry eventID clockAt range (Some w) = Some (resp, Some w') ->
  tracked_pending w -> tracked_pending w'.
Proof.
  intros Hrun Hinv.
  apply ForceRetry_inv in Hrun
    as [[_ Hrun] | [(_ & _ & ->) | (_ & ref & event & Hp & Hev & ->)]];
    [| done |].
  - apply retryFailedEvents_inv in Hrun as (sel & _ & ->). exact Hinv.
  - intros id ref' Hp'. simpl in *.
    destruct (Hinv _ _ Hp') as (event' & Hev' & Hid & Hnonempty & Hst).
    destruct (decide (ref = ref')) as [<- | Hrefs].
    + rewrite Hev in Hev'. injection Hev' as <-.
      rewrite lookup_insert_eq. eexists. split; [reflexivity |]. done.
    + rewrite lookup_insert_ne by done. by exists event'.
Qed.

Lemma tracked_pending_statement st ref w w' :
  ForceRetry_statement st ref w = Some w' ->
  tracked_pending w -> tracked_pending w'.
Proof.
  intros Hrun Hinv.
  destruct st; cbn in Hrun;
    [destruct (heap w !! ref) as [event|] eqn:Hev; [| done] ..|];
    cbn in Hrun; injection Hrun as <-; [| | exact Hinv].
  - intros id ref' Hp'. simpl in *.
    destruct (Hinv _ _ Hp') as (event' & Hev' & Hid & Hnonempty & Hst).
    destruct (decide (ref = ref')) as [<- | Hrefs].
    + rewrite Hev in Hev'. injection Hev' as <-.
      rewrite lookup_insert_eq. eexists. split; [reflexivity |]. done.
    + rewrite lookup_insert_ne by done. by exists event'.
  - intros id ref' Hp'. simpl in *.
    destruct (Hinv _ _ Hp') as (event' & Hev' & Hid & Hnonempty & Hst).
    destruct (decide (ref = ref')) as [<- | Hrefs].
    + rewrite Hev in Hev'. injection Hev' as <-.
      rewrite lookup_insert_eq. eexists. split; [reflexivity |]. done.
    + rewrite lookup_insert_ne by done. by exists event'.
Qed.

Lemma step_tracked_pending w op w' :
  step w op w' -> tracked_pending w -> tracked_pending w'.
Proof.
  intros [_ Hexec] Hinv.
  destruct op as [e | ref now idnow | env i | c r | eid c r | st ref0];
    cbn [exec] in Hexec;
    [| | | | | by apply (tracked_pending_statement st ref0 w)].
  - injection Hexec as <-. intros id ref Hp. simpl in *.
    destruct (Hinv _ _ Hp) as (event & Hev & Hrest).
    exists event. split; [| done].
    rewrite lookup_insert_ne; [done |].
    intros <-. apply (is_fresh (dom (heap w))).
    apply elem_of_dom. by exists event.
  - by apply (tracked_pending_DeliverEvent ref now idnow w).
  - destruct (goroutines w !! i) as [ref|]; [| done]. simpl in Hexec.
    destruct (processDelivery env ref w) as [w1|] eqn:Hrun; [| done].
    simpl in Hexec. injection Hexec as <-.
    apply processDelivery_inv in Hrun as (event & Hev & ->).
    intros id ref' Hp'.
    apply (tracked_pending_update_status
             (forallb Success (dispatch env event).*1) ref event
             (mkWorld (heap w) (dm w) (goroutines w)
                (network w ++ concat (dispatch env event).*2)) Hev Hinv id ref' Hp').
  - apply retryFailedEvents_inv in Hexec as (sel & _ & ->). exact Hinv.
  - destruct (ForceRetry eid c r (Some w)) as [[resp [w1|]]|] eqn:Hrun;
      cbn in Hexec; try done.
    injection Hexec as ->.
    by apply (tracked_pending_ForceRetry eid c r w resp).
Qed.

(** Every state the manager reaches from its initial state keeps the
    invariant. *)
Lemma run_tracked_pending ok w ops w' :
  run ok w ops w' -> tracked_pending w -> tracked_pending w'.
Proof.
  induction 1 as [w | w op w1 ops w2 _ Hstep _ IH]; [done |].
  intros Hinv. apply IH. by apply (step_tracked_pending w op w1).
Qed.

Lemma tracked_pending_allocated w : tracked_pending w -> allocated w.
Proof.
  intros Hinv id ref Hp. destruct (Hinv _ _ Hp) as (event & Hev & _).
  by exists event.
Qed.

Lemma reachable_tracked_pending ok ops w :
  run ok initial ops w -> tracked_pending w.
Proof.
  intros Hrun. apply (run_tracked_pending _ _ _ _ Hrun), tracked_pending_initial.
Qed.

Lemma reachable_allocated ok ops w : run ok initial ops w -> allocated w.
Proof.
  intros Hrun. by apply tracked_pending_allocated, (reachable_tracked_pending ok ops).
Qed.

(** ** Terminal records leave the pending map *)

(** C6: the cycle in which a record's status becomes Delivered or Failed
    removes its id from the pending map; from then on, whatever the manager
    does short of a new submission under the same id, [GetEventStatus]
    answers found = false for it and the [EventStatus] endpoint answers
    404. *)
Theorem terminal_event_not_found env i ref w event w' event' ops w'' :
  goroutines w !! i = Some ref ->
  heap w !! ref = Some event ->
  ID event <> "" ->
  step w (OpProcessDelivery env i) w' ->
  heap w' !! ref = Some event' ->
  Status event' <> Status event ->
  Status event' = DeliveryStatusDelivered \/ Status event' = DeliveryStatusFailed ->
  run (fun w op => ~ submits (ID event) w op) w' ops w'' ->
  GetEventStatus (ID event) w' = (None, false) /\
  GetEventStatus (ID event) w'' = (None, false) /\
  EventStatus (ID event) (Some w'') =
    mkResponse StatusNotFound (BodyText "Event not found or already completed").
Proof.
  intros Hi Hev Hid [_ Hexec] Hev' Hchanged Hterm Hrun.
  assert (Hgone : pendingEvents (dm w') !! ID event = None).
  { cbn [exec] in Hexec. rewrite Hi in Hexec. simpl in Hexec.
    rewrite (processDelivery_unfold _ _ _ _ Hev) in Hexec. simpl in Hexec.
    injection Hexec as <-. simpl in *.
    pose proof (update_status_cases
      (forallb Success (dispatch env event).*1) ref event
      (mkWorld (heap w) (dm w) (goroutines w)
         (network w ++ concat (dispatch env event).*2))) as Hc.
    simpl in Hc. destruct Hc as (_ & _ & _ & [[_ Hp] | [[_ Hp] | [Hh _]]]).
    - rewrite Hp. apply lookup_delete_eq.
    - rewrite Hp. apply lookup_delete_eq.
    - rewrite Hh, lookup_insert_eq in Hev'. injection Hev' as <-.
      by destruct Hchanged. }
  split; [by apply GetEventStatus_None |].
  assert (Hgone' : pendingEvents (dm w'') !! ID event = None)
    by (by apply (run_absent _ _ _ _ Hrun)).
  split; [by apply GetEventStatus_None |].
  unfold EventStatus. destruct (decide (ID event = "")); [done |].
  by rewrite (GetEventStatus_None _ _ Hgone').
Qed.

Lemma terminal_event_not_found_witness :
  goroutines (Scenario.tracked 2) !! 0%nat = Some 1%positive /\
  heap (Scenario.tracked 2) !! 1%positive
    = Some (set_AttemptCount 2 Scenario.receipt) /\
  step (Scenario.tracked 2) (OpProcessDelivery Scenario.broker_down 0)
    Scenario.exhausted /\
  run (fun w op => ~ submits "evt-1" w op) Scenario.exhausted
    [OpForceRetry "evt-1" (fun _ => 0) []; OpRetryTick (fun _ => 0) []]
    Scenario.exhausted /\
  GetEventStatus "evt-1" Scenario.exhausted = (None, false) /\
  EventStatus "evt-1" (Some Scenario.exhausted) =
    mkResponse StatusNotFound (BodyText "Event not found or already completed").
Proof.
  assert (Hi : goroutines (Scenario.tracked 2) !! 0%nat = Some 1%positive)
    by reflexivity.
  assert (Hev : heap (Scenario.tracked 2) !! 1%positive
                = Some (set_AttemptCount 2 Scenario.receipt)) by reflexivity.
  assert (Hstep : step (Scenario.tracked 2)
                    (OpProcessDelivery Scenario.broker_down 0)
                    Scenario.exhausted).
  { split; [exact I | vm_compute; reflexivity]. }
  assert (Hrun : run (fun w op => ~ submits "evt-1" w op) Scenario.exhausted
                   [OpForceRetry "evt-1" (fun _ => 0) [];
                    OpRetryTick (fun _ => 0) []]
                   Scenario.exhausted).
  { eapply run_cons;
      [intros [] | split; [vm_compute; reflexivity | vm_compute; reflexivity] |].
    eapply run_cons;
      [intros [] | split; [vm_compute; reflexivity | vm_compute; reflexivity] |].
    apply run_nil. }
  split; [exact Hi |]. split; [exact Hev |]. split; [exact Hstep |].
  split; [exact Hrun |].
  destruct (terminal_event_not_found Scenario.broker_down 0 1
              (Scenario.tracked 2) (set_AttemptCount 2 Scenario.receipt)
              Scenario.exhausted
              (set_LastError "Max retries exceeded"
                 (set_Status DeliveryStatusFailed
                    (set_AttemptCount 3 Scenario.receipt)))
              [OpForceRetry "evt-1" (fun _ => 0) []; OpRetryTick (fun _ => 0) []]
              Scenario.exhausted Hi Hev)
    as (_ & Hquery & Hendpoint).
  - discriminate.
  - exact Hstep.
  - reflexivity.
  - discriminate.
  - right. reflexivity.
  - exact Hrun.
  - split; [exact Hquery | exact Hendpoint].
Defined.

(** ** The channels of a cycle *)

Lemma result_of_Channel channel start stop err :
  Channel (result_of channel start stop err) = channel.
Proof. by destruct err. Qed.

Lemma deliverToUserWebhook_Channel env event webhookURL :
  Channel (deliverToUserWebhook env event webhookURL).1 = "webhook".
Proof.
  unfold deliverToUserWebhook. destruct (clock env "webhook") as [start stop].
  destruct (GetHTTPClient env (UserID event)); simpl; [| done].
  apply result_of_Channel.
Qed.

Lemma deliverToGlobalWebhook_Channel env event :
  Channel (deliverToGlobalWebhook env event).1 = "global_webhook".
Proof.
  unfold deliverToGlobalWebhook.
  destruct (clock env "global_webhook") as [start stop].
  destruct (GetHTTPClient env (UserID event)); simpl; [| done].
  apply result_of_Channel.
Qed.

Lemma deliverToRabbitMQ_Channel env event :
  Channel (deliverToRabbitMQ env event).1 = "rabbitmq".
Proof.
  unfold deliverToRabbitMQ. destruct (clock env "rabbitmq") as [start stop].
  destruct (ctxDone env); simpl; [done |].
  apply result_of_Channel.
Qed.


(** ** ForceRetry *)





(** ** Cycles without a channel *)

Lemma dispatch_origin env event r :
  r ∈ (dispatch env event).*1 ->
  (Channel r = "webhook" /\ getUserWebhookUrl env (Token event) <> "") \/
  (Channel r = "global_webhook" /\ globalWebhook env <> "") \/
  (Channel r = "rabbitmq" /\ rabbitEnabled env = true).
Proof.
  unfold dispatch. rewrite !fmap_app, !elem_of_app.
  intros [Hr | [Hr | Hr]].
  - destruct (decide _) as [| Hne]; [by apply elem_of_nil in Hr |].
    apply list_elem_of_singleton in Hr as ->. left.
    split; [apply deliverToUserWebhook_Channel | done].
  - destruct (decide _) as [| Hne]; [by apply elem_of_nil in Hr |].
    apply list_elem_of_singleton in Hr as ->. right. left.
    split; [apply deliverToGlobalWebhook_Channel | done].
  - destruct (rabbitEnabled env); [| by apply elem_of_nil in Hr].
    apply list_elem_of_singleton in Hr as ->. right. right.
    split; [apply deliverToRabbitMQ_Channel | done].
Qed.

Lemma dispatch_none env event :
  getUserWebhookUrl env (Token event) = "" ->
  globalWebhook env = "" ->
  rabbitEnabled env = false ->
  dispatch env event = [].
Proof.
  intros Hu Hg Hr. unfold dispatch. rewrite Hr.
  destruct (decide _); [| done]. destruct (decide _); [| done]. done.
Qed.

(** C5: when no channel is enabled the first cycle of a submitted record
    dispatches nothing, sets the status to Delivered and removes the id
    from the pending map; and in any cycle every collected result, hence
    every failure, comes from a channel that has a destination. *)
Theorem no_channel_vacuous_success env ref now idnow w event :
  heap w !! ref = Some event ->
  getUserWebhookUrl env (Token event) = "" ->
  globalWebhook env = "" ->
  rabbitEnabled env = false ->
  (exists w1 event1 w2,
     DeliverEvent ref now idnow w = Some w1 /\
     heap w1 !! ref = Some event1 /\
     Status event1 = DeliveryStatusPending /\
     GetEventStatus (ID event1) w1 = (Some ref, true) /\
     ref ∈ goroutines w1 /\
     dispatch env event1 = [] /\
     processDelivery env ref w1 = Some w2 /\
     heap w2 !! ref = Some (set_Status DeliveryStatusDelivered event1) /\
     AttemptCount event1 = AttemptCount event /\
     GetEventStatus (ID event1) w2 = (None, false) /\
     network w2 = network w) /\
  (forall env' event' r,
     r ∈ (dispatch env' event').*1 ->
     (Channel r = "webhook" /\ getUserWebhookUrl env' (Token event') <> "") \/
     (Channel r = "global_webhook" /\ globalWebhook env' <> "") \/
     (Channel r = "rabbitmq" /\ rabbitEnabled env' = true)).
Proof.
  intros Hev Hu Hg Hr. split; [| apply dispatch_origin].
  rewrite (DeliverEvent_unfold _ _ _ _ _ Hev). simpl.
  set (event1 := set_ID (stored_id event idnow)
                   (set_Status DeliveryStatusPending (set_CreatedAt now event))).
  assert (Hnone : dispatch env event1 = []) by (by apply dispatch_none).
  eexists _, event1, _. split; [reflexivity |]. simpl.
  split; [apply lookup_insert_eq |]. split; [reflexivity |].
  split; [apply GetEventStatus_Some; simpl; apply lookup_insert_eq |].
  split; [apply elem_of_app; right; by apply list_elem_of_singleton |].
  split; [exact Hnone |]. split.
  { apply processDelivery_succeeding; simpl; [apply lookup_insert_eq |].
    rewrite Hnone. intros r Hin. by apply elem_of_nil in Hin. }
  rewrite update_status_success. simpl. rewrite lookup_insert_eq.
  split; [reflexivity |]. split; [reflexivity |].
  split; [apply GetEventStatus_None; simpl; apply lookup_delete_eq |].
  rewrite Hnone. simpl. apply app_nil_r.
Qed.

Lemma no_channel_vacuous_success_witness :
  heap Scenario.built !! 1%positive = Some Scenario.receipt /\
  getUserWebhookUrl Scenario.no_channel (Token Scenario.receipt) = "" /\
  globalWebhook Scenario.no_channel = "" /\
  rabbitEnabled Scenario.no_channel = false /\
  exists w1 event1 w2,
    DeliverEvent 1 0 5 Scenario.built = Some w1 /\
    heap w1 !! 1%positive = Some event1 /\
    processDelivery Scenario.no_channel 1 w1 = Some w2 /\
    heap w2 !! 1%positive = Some (set_Status DeliveryStatusDelivered event1) /\
    GetEventStatus (ID event1) w2 = (None, false).
Proof.
  assert (Hev : heap Scenario.built !! 1%positive = Some Scenario.receipt)
    by reflexivity.
  split; [exact Hev |]. split; [reflexivity |]. split; [reflexivity |].
  split; [reflexivity |].
  destruct (no_channel_vacuous_success Scenario.no_channel 1 0 5
              Scenario.built Scenario.receipt Hev eq_refl eq_refl eq_refl)
    as [(w1 & event1 & w2 & H1 & H2 & _ & _ & _ & _ & H3 & H4 & _ & H5 & _) _].
  exists w1, event1, w2.
  split; [exact H1 |]. split; [exact H2 |]. split; [exact H3 |].
  split; [exact H4 | exact H5].
Defined.

(** ** Submission overwrites *)

(** C9: [DeliverEvent] always writes the submission time and the status
    Pending into the record, whatever the producer had put there, and files
    the record under its id; a record that was filed under that id before
    is no longer reachable through the pending map, so its attempt count is
    not carried over: the id now answers with the new record and the new
    record's own count. *)
Theorem DeliverEvent_overwrites ref now idnow w event :
  heap w !! ref = Some event ->
  exists w' event',
    DeliverEvent ref now idnow w = Some w' /\
    heap w' !! ref = Some event' /\
    CreatedAt event' = now /\
    Status event' = DeliveryStatusPending /\
    ID event' = stored_id event idnow /\
    (ID event <> "" -> ID event' = ID event) /\
    AttemptCount event' = AttemptCount event /\
    LastError event' = LastError event /\
    GetEventStatus (ID event') w' = (Some ref, true) /\
    goroutines w' = goroutines w ++ [ref] /\
    (forall old oldEvent,
       pendingEvents (dm w) !! ID event' = Some old ->
       old <> ref ->
       heap w !! old = Some oldEvent ->
       tracked_pending w ->
       heap w' !! old = Some oldEvent /\
       forall id, pendingEvents (dm w') !! id <> Some old).
Proof.
  intros Hev. rewrite (DeliverEvent_unfold _ _ _ _ _ Hev). simpl.
  eexists _, _. split; [reflexivity |]. simpl.
  split; [apply lookup_insert_eq |]. simpl.
  split; [reflexivity |]. split; [reflexivity |]. split; [reflexivity |].
  split. { intros Hne. unfold stored_id. by destruct (decide _). }
  split; [reflexivity |]. split; [reflexivity |].
  split; [apply GetEventStatus_Some; simpl; apply lookup_insert_eq |].
  split; [reflexivity |].
  intros old oldEvent Hold Hne Hheap Hinv.
  split; [by rewrite lookup_insert_ne |].
  intros id Hid.
  destruct (decide (stored_id event idnow = id)) as [<- | Hother].
  - rewrite lookup_insert_eq in Hid. congruence.
  - rewrite lookup_insert_ne in Hid by done.
    destruct (Hinv _ _ Hid) as (e1 & He1 & Hid1 & _).
    destruct (Hinv _ _ Hold) as (e2 & He2 & Hid2 & _).
    congruence.
Qed.

Lemma DeliverEvent_overwrites_witness :
  heap (mkWorld {[ 2%positive :=
                     mkDeliveryEvent "evt-1" "u1" "tok" "Message" "{}" "" 77 0
                       DeliveryStatusFailed "stale";
                   1%positive := set_AttemptCount 2 Scenario.receipt ]}
          (dm (Scenario.tracked 2)) [] []) !! 2%positive
    = Some (mkDeliveryEvent "evt-1" "u1" "tok" "Message" "{}" "" 77 0
              DeliveryStatusFailed "stale") /\
  exists w' event',
    DeliverEvent 2 500 501
      (mkWorld {[ 2%positive :=
                    mkDeliveryEvent "evt-1" "u1" "tok" "Message" "{}" "" 77 0
                      DeliveryStatusFailed "stale";
                  1%positive := set_AttemptCount 2 Scenario.receipt ]}
         (dm (Scenario.tracked 2)) [] []) = Some w' /\
    heap w' !! 2%positive = Some event' /\
    CreatedAt event' = 500 /\
    Status event' = DeliveryStatusPending /\
    AttemptCount event' = 0 /\
    GetEventStatus "evt-1" w' = (Some 2%positive, true).
Proof.
  set (w := mkWorld _ _ _ _).
  assert (Hev : heap w !! 2%positive
                = Some (mkDeliveryEvent "evt-1" "u1" "tok" "Message" "{}" "" 77 0
                          DeliveryStatusFailed "stale")) by reflexivity.
  split; [exact Hev |].
  destruct (DeliverEvent_overwrites 2 500 501 w _ Hev)
    as (w' & event' & Hrun & Hlook & Ht & Hs & Hid & _ & Ha & _ & Hget & _).
  exists w', event'. split; [exact Hrun |]. split; [exact Hlook |].
  split; [exact Ht |]. split; [exact Hs |]. split; [exact Ha |].
  rewrite Hid in Hget. exact Hget.
Defined.

(** ** Adapters without an HTTP client *)

(** C10: when no HTTP client is registered for the record's user, both
    webhook adapters return a result with Success = false and their fixed,
    non-empty error text, having made no outgoing call; in the aggregate
    such a result weighs exactly as a transport error of the same channel
    does, and a cycle that dispatches a webhook takes the failure branch of
    the critical section. *)
Theorem no_HTTP_client_is_channel_failure env event webhookURL :
  GetHTTPClient env (UserID event) = false ->
  let user := deliverToUserWebhook env event webhookURL in
  let global := deliverToGlobalWebhook env event in
  (Channel user.1 = "webhook" /\ Success user.1 = false /\
   Error user.1 = "HTTP client not found for user" /\ Error user.1 <> "" /\
   user.2 = []) /\
  (Channel global.1 = "global_webhook" /\ Success global.1 = false /\
   Error global.1 = "HTTP client not available" /\ Error global.1 <> "" /\
   global.2 = []) /\
  (forall r before after start stop msg,
     r = user.1 \/ r = global.1 ->
     Success r = Success (result_of (Channel r) start stop (Some msg)) /\
     (collect (before ++ r :: after)).2 = false /\
     (collect (before ++ r :: after)).2 =
     (collect (before ++ result_of (Channel r) start stop (Some msg) :: after)).2) /\
  (getUserWebhookUrl env (Token event) <> "" \/ globalWebhook env <> "" ->
   forall ref w,
     heap w !! ref = Some event ->
     processDelivery env ref w =
     Some (update_status false ref event
             (mkWorld (heap w) (dm w) (goroutines w)
                (network w ++ concat (dispatch env event).*2)))).
Proof.
  intros Hclient user global.
  assert (Huser : Channel user.1 = "webhook" /\ Success user.1 = false /\
                  Error user.1 = "HTTP client not found for user" /\
                  Error user.1 <> "" /\ user.2 = []).
  { subst user. unfold deliverToUserWebhook.
    destruct (clock env "webhook") as [start stop]. rewrite Hclient. simpl.
    repeat split; discriminate. }
  assert (Hglobal : Channel global.1 = "global_webhook" /\
                    Success global.1 = false /\
                    Error global.1 = "HTTP client not available" /\
                    Error global.1 <> "" /\ global.2 = []).
  { subst global. unfold deliverToGlobalWebhook.
    destruct (clock env "global_webhook") as [start stop]. rewrite Hclient.
    simpl. repeat split; discriminate. }
  split; [exact Huser |]. split; [exact Hglobal |]. split.
  - intros r before after start stop msg Hr.
    assert (Hs : Success r = false).
    { destruct Hr as [-> | ->]; [apply Huser | apply Hglobal]. }
    rewrite !collect_spec. simpl. rewrite !forallb_app. simpl. rewrite Hs.
    split; [reflexivity |]. split; [| reflexivity].
    by rewrite andb_false_r.
  - intros Henabled ref w Hev. apply processDelivery_failing; [exact Hev |].
    unfold dispatch. destruct Henabled as [Hu | Hg].
    + exists (deliverToUserWebhook env event
                (getUserWebhookUrl env (Token event))).1.
      split.
      * destruct (decide _); [done |]. rewrite fmap_app. apply elem_of_app.
        left. simpl. by apply list_elem_of_singleton.
      * unfold deliverToUserWebhook.
        destruct (clock env "webhook") as [start stop]. by rewrite Hclient.
    + exists global.1. split; [| apply Hglobal].
      rewrite !fmap_app, !elem_of_app. right. left.
      destruct (decide _); [done |]. simpl. by apply list_elem_of_singleton.
Qed.

Lemma no_HTTP_client_is_channel_failure_witness :
  GetHTTPClient Scenario.no_client (UserID Scenario.receipt) = false /\
  deliverToUserWebhook Scenario.no_client Scenario.receipt "http://hook.example" =
    ({| Channel := "webhook"; Success := false;
        Error := "HTTP client not found for user";
        Duration := 5; Timestamp := 1000 |}, []) /\
  Error (deliverToGlobalWebhook Scenario.no_client Scenario.receipt).1
    = "HTTP client not available" /\
  (deliverToGlobalWebhook Scenario.no_client Scenario.receipt).2 = [].
Proof.
  assert (Hclient : GetHTTPClient Scenario.no_client (UserID Scenario.receipt)
                    = false) by reflexivity.
  split; [exact Hclient |]. split; [vm_compute; reflexivity |].
  destruct (no_HTTP_client_is_channel_failure Scenario.no_client
              Scenario.receipt "http://hook.example" Hclient)
    as (_ & (_ & _ & Herr & _ & Hcalls) & _).
  split; [exact Herr | exact Hcalls].
Defined.

(** ** The retry sweep *)

Lemma select_retries_spec m h clockAt range acc :
  (forall entry, entry ∈ range -> is_Some (h !! entry.2)) ->
  select_retries m h clockAt range acc =
  Some (acc ++ (filter (fun entry =>
                          match h !! entry.2 with
                          | Some event => retry_condition m (clockAt entry.1) event
                          | None => false
                          end = true) range).*2).
Proof.
  revert acc. induction range as [|[id ref] range IH]; intros acc Halloc.
  - simpl. by rewrite app_nil_r.
  - cbn [select_retries].
    destruct (Halloc (id, ref)) as [event Hev]; [left |]. simpl in Hev.
    rewrite Hev. cbn [mbind option_bind].
    assert (Hrest : forall entry, entry ∈ range -> is_Some (h !! entry.2)).
    { intros entry Hin. apply Halloc. by right. }
    destruct (retry_condition m (clockAt id) event) eqn:Hcond.
    + rewrite filter_cons_True by (simpl; by rewrite Hev).
      rewrite IH by done. simpl. by rewrite <- app_assoc.
    + rewrite filter_cons_False by (simpl; rewrite Hev; congruence).
      by rewrite IH.
Qed.

Lemma retry_condition_true m now event :
  retry_condition m now event = true <->
  Status event = DeliveryStatusPending /\
  AttemptCount event < maxRetries m /\
  retryBackoff m < time_Since now (CreatedAt event).
Proof.
  unfold retry_condition. rewrite !andb_true_iff, !bool_decide_eq_true.
  tauto.
Qed.

Lemma range_allocated w range :
  allocated w ->
  range ≡ₚ map_to_list (pendingEvents (dm w)) ->
  forall entry, entry ∈ range -> is_Some (heap w !! entry.2).
Proof.
  intros Halloc Hperm [id ref] Hin. rewrite Hperm in Hin.
  apply elem_of_map_to_list in Hin. by apply (Halloc id ref).
Qed.

(** C7: a sweep selects exactly the entries of the pending map whose
    record is Pending, has fewer than [maxRetries] attempts and was created
    more than the sweep interval before the clock reading of the visit;
    each selected entry is selected once, a goroutine running the fan-out
    is spawned for each of them and for nothing else, and the sweep itself
    changes neither the records nor the map. *)
Theorem retryFailedEvents_selects clockAt range w :
  allocated w ->
  range ≡ₚ map_to_list (pendingEvents (dm w)) ->
  let selected := filter (fun entry => eligible w clockAt entry = true) range in
  retryFailedEvents clockAt range w =
    Some {| heap := heap w;
            dm := dm w;
            goroutines := goroutines w ++ selected.*2;
            network := network w |} /\
  NoDup selected /\
  forall id ref,
    (id, ref) ∈ selected <->
    pendingEvents (dm w) !! id = Some ref /\
    exists event,
      heap w !! ref = Some event /\
      Status event = DeliveryStatusPending /\
      AttemptCount event < maxRetries (dm w) /\
      retryBackoff (dm w) < time_Since (clockAt id) (CreatedAt event).
Proof.
  intros Halloc Hperm selected. split; [| split].
  - unfold retryFailedEvents.
    rewrite (select_retries_spec _ _ _ _ _ (range_allocated _ _ Halloc Hperm)).
    reflexivity.
  - apply NoDup_filter. rewrite Hperm. apply NoDup_map_to_list.
  - intros id ref. subst selected. rewrite list_elem_of_filter, Hperm.
    rewrite elem_of_map_to_list. unfold eligible. simpl. split.
    + intros [Hcond Hp]. split; [exact Hp |].
      destruct (heap w !! ref) as [event|]; [| discriminate].
      exists event. split; [reflexivity |]. by apply retry_condition_true.
    + intros [Hp (event & Hev & Hcond)]. split; [| exact Hp].
      rewrite Hev. by apply retry_condition_true.
Qed.

Lemma retryFailedEvents_selects_witness :
  allocated (Scenario.tracked 1) /\
  Scenario.range1 ≡ₚ map_to_list (pendingEvents (dm (Scenario.tracked 1))) /\
  retryFailedEvents (fun _ => 3 * second) Scenario.range1 (Scenario.tracked 1) =
    Some {| heap := heap (Scenario.tracked 1);
            dm := dm (Scenario.tracked 1);
            goroutines := [1%positive; 1%positive];
            network := [] |} /\
  retryFailedEvents (fun _ => 2 * second) Scenario.range1 (Scenario.tracked 1) =
    Some (Scenario.tracked 1).
Proof.
  assert (Halloc : allocated (Scenario.tracked 1)).
  { intros id ref Hp. simpl in Hp.
    apply lookup_singleton_Some in Hp as [<- <-]. by eexists. }
  assert (Hperm : Scenario.range1
                    ≡ₚ map_to_list (pendingEvents (dm (Scenario.tracked 1))))
    by (vm_compute; reflexivity).
  split; [exact Halloc |]. split; [exact Hperm |]. split.
  - destruct (retryFailedEvents_selects (fun _ => 3 * second) Scenario.range1
                (Scenario.tracked 1) Halloc Hperm) as [Hrun _].
    rewrite Hrun. vm_compute. reflexivity.
  - destruct (retryFailedEvents_selects (fun _ => 2 * second) Scenario.range1
                (Scenario.tracked 1) Halloc Hperm) as [Hrun _].
    rewrite Hrun. vm_compute. reflexivity.
Defined.

(** ** The listing endpoint *)

Lemma parse_limit_pos limitStr : 0 < parse_limit limitStr.
Proof.
  unfold parse_limit. destruct (decide _); [lia |].
  destruct (Atoi limitStr) as [parsed|]; [| lia].
  destruct (decide (0 < parsed)); lia.
Qed.

Lemma metrics_loop_spec h userID limit range shown count :
  (forall entry, entry ∈ range -> is_Some (h !! entry.2)) ->
  let matching :=
    filter (fun entry =>
              match h !! entry.2 with
              | Some event =>
                  bool_decide (userID = "") || bool_decide (UserID event = userID)
              | None => false
              end = true) range in
  metrics_loop h userID limit range shown count =
  Some (shown ++ take (Z.to_nat (limit - count)) matching.*2,
        count + Z.of_nat (length matching)).
Proof.
  revert shown count. induction range as [|[id ref] range IH];
    intros shown count Halloc; cbn zeta.
  - simpl. rewrite take_nil, app_nil_r. f_equal. f_equal. lia.
  - cbn [metrics_loop].
    destruct (Halloc (id, ref)) as [event Hev]; [left |]. simpl in Hev.
    rewrite Hev. cbn [mbind option_bind].
    assert (Hrest : forall entry, entry ∈ range -> is_Some (h !! entry.2)).
    { intros entry Hin. apply Halloc. by right. }
    destruct (bool_decide (userID = "") || bool_decide (UserID event = userID))
      eqn:Hmatch.
    + rewrite filter_cons_True by (simpl; by rewrite Hev).
      rewrite IH by done. cbn zeta. simpl length. f_equal. f_equal; [| lia].
      destruct (decide (count < limit)) as [Hlt | Hge].
      * replace (Z.to_nat (limit - count))
          with (S (Z.to_nat (limit - (count + 1)))) by lia.
        simpl. by rewrite <- app_assoc.
      * replace (Z.to_nat (limit - count)) with 0%nat by lia.
        replace (Z.to_nat (limit - (count + 1))) with 0%nat by lia.
        by rewrite !take_0.
    + rewrite filter_cons_False by (simpl; rewrite Hev; congruence).
      by rewrite IH.
Qed.

(** C8: the listing returns the first [limit] records, in the order of the
    visit, among those that pass the tenant filter, so at most [limit] of
    them; the limit is 50 when the query parameter is absent (or is not a
    positive integer) and the parsed value otherwise; the response carries
    the size of the pending map and the number of all records passing the
    filter, which does not depend on the limit or on the order of the
    visit. *)
Theorem DeliveryMetrics_listing userID limitStr range w :
  allocated w ->
  range ≡ₚ map_to_list (pendingEvents (dm w)) ->
  let limit := parse_limit limitStr in
  let matching := filter (fun entry => matches w userID entry = true) range in
  let shown := take (Z.to_nat limit) matching.*2 in
  DeliveryMetrics userID limitStr range (Some w) =
    Some (mkResponse StatusOK
            (BodyMetrics
               {| total_pending := GetPendingEventsCount w;
                  filtered_count := Z.of_nat (length matching);
                  shown_count := Z.of_nat (length shown);
                  events := shown |})) /\
  Z.of_nat (length shown) <= limit /\
  parse_limit "" = 50 /\
  (forall n, Atoi limitStr = Some n -> 0 < n -> limit = n) /\
  (Atoi limitStr = None -> limit = 50) /\
  length matching =
    length (filter (fun entry => matches w userID entry = true)
              (map_to_list (pendingEvents (dm w)))) /\
  (forall id ref,
     (id, ref) ∈ matching <->
     pendingEvents (dm w) !! id = Some ref /\
     exists event,
       heap w !! ref = Some event /\
       (userID = "" \/ UserID event = userID)) /\
  (forall ref, ref ∈ shown -> exists id, (id, ref) ∈ matching).
Proof.
  intros Halloc Hperm limit matching shown.
  split; [| split; [| split; [| split; [| split; [| split; [| split]]]]]].
  - unfold DeliveryMetrics.
    rewrite (metrics_loop_spec _ _ _ _ _ _ (range_allocated _ _ Halloc Hperm)).
    cbn zeta. simpl. rewrite Z.sub_0_r. reflexivity.
  - subst shown. rewrite length_take.
    pose proof (parse_limit_pos limitStr). subst limit. lia.
  - reflexivity.
  - intros n Hn Hpos. subst limit. unfold parse_limit.
    destruct (decide (limitStr = "")) as [-> | _]; [discriminate Hn |].
    rewrite Hn. by destruct (decide (0 < n)).
  - intros Hn. subst limit. unfold parse_limit.
    destruct (decide _); [done |]. by rewrite Hn.
  - subst matching. by rewrite Hperm.
  - intros id ref. subst matching. rewrite list_elem_of_filter, Hperm.
    rewrite elem_of_map_to_list. unfold matches. simpl. split.
    + intros [Hm Hp]. split; [exact Hp |].
      destruct (heap w !! ref) as [event|]; [| discriminate].
      exists event. split; [reflexivity |].
      apply orb_true_iff in Hm as [Hm | Hm]; apply bool_decide_eq_true in Hm;
        [by left | by right].
    + intros [Hp (event & Hev & Hm)]. split; [| exact Hp].
      rewrite Hev. apply orb_true_iff.
      destruct Hm as [Hm | Hm]; [left | right]; by apply bool_decide_eq_true.
  - intros ref Hin. subst shown.
    apply list_elem_of_lookup in Hin as [k Hk].
    apply lookup_take_Some in Hk as [Hk _].
    apply list_lookup_fmap_Some_1 in Hk as ([id ref'] & -> & Hentry).
    exists id. simpl. by apply (list_elem_of_lookup_2 _ k).
Qed.

Lemma DeliveryMetrics_listing_witness :
  allocated Scenario.listing /\
  Scenario.range3 ≡ₚ map_to_list (pendingEvents (dm Scenario.listing)) /\
  DeliveryMetrics "u1" "1" Scenario.range3 (Some Scenario.listing) =
    Some (mkResponse StatusOK
            (BodyMetrics {| total_pending := 3; filtered_count := 2;
                            shown_count := 1; events := [3%positive] |})) /\
  DeliveryMetrics "" "" Scenario.range3 (Some Scenario.listing) =
    Some (mkResponse StatusOK
            (BodyMetrics {| total_pending := 3; filtered_count := 3;
                            shown_count := 3;
                            events := [3%positive; 2%positive; 1%positive] |})).
Proof.
  assert (Halloc : allocated Scenario.listing).
  { intros id ref Hp. apply elem_of_map_to_list in Hp.
    change (map_to_list (pendingEvents (dm Scenario.listing)))
      with [("c", 3%positive); ("a", 1%positive); ("b", 2%positive)] in Hp.
    repeat (apply elem_of_cons in Hp as [Hp | Hp];
            [injection Hp as -> ->; by eexists |]).
    by apply elem_of_nil in Hp. }
  assert (Hperm : Scenario.range3
                    ≡ₚ map_to_list (pendingEvents (dm Scenario.listing))).
  { change (map_to_list (pendingEvents (dm Scenario.listing)))
      with [("c", 3%positive); ("a", 1%positive); ("b", 2%positive)].
    apply perm_skip, perm_swap. }
  split; [exact Halloc |]. split; [exact Hperm |]. split.
  - destruct (DeliveryMetrics_listing "u1" "1" Scenario.range3 Scenario.listing
                Halloc Hperm) as [Hrun _].
    rewrite Hrun. vm_compute. reflexivity.
  - destruct (DeliveryMetrics_listing "" "" Scenario.range3 Scenario.listing
                Halloc Hperm) as [Hrun _].
    rewrite Hrun. vm_compute. reflexivity.
Defined.

(** * Further properties of the manager *)

(** ** The shape of a step *)

Lemma step_cases w op w' :
  step w op w' ->
  (exists event,
      op = OpNew event /\
      w' = mkWorld (<[fresh (dom (heap w)) := event]> (heap w)) (dm w)
             (goroutines w) (network w)) \/
  (exists ref now idnow, op = OpDeliverEvent ref now idnow /\
      DeliverEvent ref now idnow w = Some w') \/
  (exists env i ref event u,
      op = OpProcessDelivery env i /\
      goroutines w !! i = Some ref /\
      heap w !! ref = Some event /\
      u = update_status (forallb Success (dispatch env event).*1) ref event
            (mkWorld (heap w) (dm w) (goroutines w)
               (network w ++ concat (dispatch env event).*2)) /\
      w' = mkWorld (heap u) (dm u) (delete i (goroutines u)) (network u)) \/
  (exists clockAt range sel,
      op = OpRetryTick clockAt range /\
      range ≡ₚ map_to_list (pendingEvents (dm w)) /\
      select_retries (dm w) (heap w) clockAt range [] = Some sel /\
      w' = mkWorld (heap w) (dm w) (goroutines w ++ sel) (network w)) \/
  (exists eventID clockAt range resp,
      op = OpForceRetry eventID clockAt range /\
      range ≡ₚ map_to_list (pendingEvents (dm w)) /\
      ForceRetry eventID clockAt range (Some w) = Some (resp, Some w')) \/
  (exists st ref event,
      op = OpForceRetryStatement st ref /\
      heap w !! ref = Some event /\
      ID event <> "" /\
      w' = mkWorld
             match st with
             | SetAttemptCount => <[ref := set_AttemptCount 0 event]> (heap w)
             | SetStatus =>
                 <[ref := set_Status DeliveryStatusPending event]> (heap w)
             | Spawn => heap w
             end
             (dm w)
             match st with
             | Spawn => goroutines w ++ [ref]
             | _ => goroutines w
             end
             (network w)).
Proof.
  intros [Hadm Hexec].
  destruct op as [e | ref now idnow | env i | c r | eid c r | st ref0];
    cbn [exec] in Hexec.
  - left. injection Hexec as <-. by exists e.
  - right. left. by exists ref, now, idnow.
  - right. right. left.
    destruct (goroutines w !! i) as [ref|] eqn:Hi; [| done]. simpl in Hexec.
    destruct (processDelivery env ref w) as [w1|] eqn:Hrun; [| done].
    simpl in Hexec. injection Hexec as <-.
    apply processDelivery_inv in Hrun as (event & Hev & ->).
    by exists env, i, ref, event, (update_status
      (forallb Success (dispatch env event).*1) ref event
      (mkWorld (heap w) (dm w) (goroutines w)
         (network w ++ concat (dispatch env event).*2))).
  - right. right. right. left.
    apply retryFailedEvents_inv in Hexec as (sel & Hsel & ->).
    by exists c, r, sel.
  - right. right. right. right. left.
    destruct (ForceRetry eid c r (Some w)) as [[resp [w1|]]|] eqn:Hrun;
      cbn in Hexec; try done.
    injection Hexec as ->. by exists eid, c, r, resp.
  - right. right. right. right. right.
    destruct Hadm as (event & Hev & Hne).
    apply (ForceRetry_statement_inv st ref0 event) in Hexec as ->; [| done].
    by exists st, ref0, event.
Qed.

(** The sweep inside [ForceRetry] and the tick are the same function. *)
Lemma ForceRetry_cases eventID clockAt range w resp w' :
  ForceRetry eventID clockAt range (Some w) = Some (resp, Some w') ->
  (exists sel,
      select_retries (dm w) (heap w) clockAt range [] = Some sel /\
      w' = mkWorld (heap w) (dm w) (goroutines w ++ sel) (network w)) \/
  w' = w \/
  (exists ref event,
      pendingEvents (dm w) !! eventID = Some ref /\
      heap w !! ref = Some event /\
      w' = mkWorld (<[ref := set_Status DeliveryStatusPending
                               (set_AttemptCount 0 event)]> (heap w))
             (dm w) (goroutines w ++ [ref]) (network w)).
Proof.
  intros Hrun.
  apply ForceRetry_inv in Hrun
    as [[_ Hrun] | [(_ & _ & ->) | (_ & ref & event & Hp & Hev & ->)]].
  - left. by apply retryFailedEvents_inv in Hrun.
  - right. by left.
  - right. right. by exists ref, event.
Qed.

Lemma DeliverEvent_world ref now idnow w w' :
  DeliverEvent ref now idnow w = Some w' ->
  exists event,
    heap w !! ref = Some event /\
    w' = {| heap := <[ref := set_ID (stored_id event idnow)
                              (set_Status DeliveryStatusPending
                                 (set_CreatedAt now event))]> (heap w);
            dm := {| pendingEvents := <[stored_id event idnow := ref]>
                                        (pendingEvents (dm w));
                     maxRetries := maxRetries (dm w);
                     retryBackoff := retryBackoff (dm w);
                     timeout := timeout (dm w) |};
            goroutines := goroutines w ++ [ref];
            network := network w |}.
Proof.
  intros Hrun. destruct (heap w !! ref) as [event|] eqn:Hev.
  - rewrite (DeliverEvent_unfold _ _ _ _ _ Hev) in Hrun.
    injection Hrun as <-. by exists event.
  - unfold DeliverEvent in Hrun. by rewrite Hev in Hrun.
Qed.

(** ** The configuration is fixed *)

Lemma step_configuration w op w' :
  step w op w' ->
  maxRetries (dm w') = maxRetries (dm w) /\
  retryBackoff (dm w') = retryBackoff (dm w) /\
  timeout (dm w') = timeout (dm w).
Proof.
  intros Hstep. apply step_cases in Hstep
    as [(e & _ & ->) | [(ref & now & idnow & _ & Hrun) |
        [(env & i & ref & event & u & _ & _ & _ & -> & ->) |
         [(c & r & sel & _ & _ & _ & ->) |
          [(eid & c & r & resp & _ & _ & Hrun) |
           (st6 & r6 & e6 & _ & _ & _ & ->)]]]]].
  - done.
  - by apply DeliverEvent_world in Hrun as (event & _ & ->).
  - simpl. unfold update_status.
    destruct (forallb _ _); simpl; [done |]. by destruct (decide _).
  - done.
  - apply ForceRetry_cases in Hrun
      as [(sel & _ & ->) | [-> | (ref & event & _ & _ & ->)]]; done.
  - done.
Qed.

Lemma run_configuration ok w ops w' :
  run ok w ops w' ->
  maxRetries (dm w') = maxRetries (dm w) /\
  retryBackoff (dm w') = retryBackoff (dm w) /\
  timeout (dm w') = timeout (dm w).
Proof.
  induction 1 as [w | w op w1 ops w2 _ Hstep _ IH]; [done |].
  destruct (step_configuration _ _ _ Hstep) as (H1 & H2 & H3).
  destruct IH as (I1 & I2 & I3). repeat split; congruence.
Qed.

Lemma submit_one_run :
  run (fun _ _ => True) initial Cases.submit_one (Scenario.tracked 0).
Proof.
  apply (run_cons _ _ _ Scenario.built);
    [exact I | split; [exact I | vm_compute; reflexivity] |].
  apply (run_cons _ _ _ (Scenario.tracked 0));
    [exact I | split; [exact I | vm_compute; reflexivity] |].
  apply run_nil.
Qed.

(** X1: In every state the manager reaches, the status endpoint reports the
    configuration set by [InitDeliveryManager] (3 retries, 10000 ms,
    2000 ms) and the current size of the pending map: no operation changes
    the configuration. *)
Theorem DeliveryStatus_reports_configuration ok ops w :
  run ok initial ops w ->
  server_DeliveryStatus (Some w) =
  (StatusOK,
   StatusRunning {| status_text := "running";
                    pending_events := Z.of_nat (size (pendingEvents (dm w)));
                    max_retries := 3;
                    timeout_ms := 10000;
                    retry_backoff_ms := 2000 |}).
Proof.
  intros Hrun. destruct (run_configuration _ _ _ _ Hrun) as (H1 & H2 & H3).
  unfold server_DeliveryStatus, GetPendingEventsCount. rewrite H1, H2, H3.
  reflexivity.
Qed.

Lemma DeliveryStatus_reports_configuration_witness :
  run (fun _ _ => True) initial Cases.submit_one (Scenario.tracked 0) /\
  server_DeliveryStatus (Some (Scenario.tracked 0)) =
  (200, StatusRunning {| status_text := "running"; pending_events := 1;
                         max_retries := 3; timeout_ms := 10000;
                         retry_backoff_ms := 2000 |}).
Proof.
  split; [exact submit_one_run |].
  rewrite (DeliveryStatus_reports_configuration _ _ _ submit_one_run).
  vm_compute. reflexivity.
Defined.



(** ** The pending count *)

(** X3: A submission raises the pending count by one when the id it is stored
    under is new, and leaves the count as it is when a record was already
    filed under that id (the entry is replaced). *)
Theorem pending_count_after_submit ref now idnow w event w' :
  heap w !! ref = Some event ->
  DeliverEvent ref now idnow w = Some w' ->
  (pendingEvents (dm w) !! stored_id event idnow = None ->
   GetPendingEventsCount w' = GetPendingEventsCount w + 1) /\
  (is_Some (pendingEvents (dm w) !! stored_id event idnow) ->
   GetPendingEventsCount w' = GetPendingEventsCount w).
Proof.
  intros Hev Hrun. rewrite (DeliverEvent_unfold _ _ _ _ _ Hev) in Hrun.
  injection Hrun as <-. unfold GetPendingEventsCount. simpl. split.
  - intros Hnew. rewrite map_size_insert_None by done. lia.
  - intros Hold. by rewrite map_size_insert_Some.
Qed.

Lemma pending_count_after_submit_witness :
  heap Scenario.built !! 1%positive = Some Scenario.receipt /\
  DeliverEvent 1 0 5 Scenario.built = Some (Scenario.tracked 0) /\
  GetPendingEventsCount Scenario.built = 0 /\
  GetPendingEventsCount (Scenario.tracked 0) = 1 /\
  (exists w', DeliverEvent 1 9 9 (Scenario.tracked 0) = Some w' /\
              GetPendingEventsCount w' = 1).
Proof.
  assert (Hev : heap Scenario.built !! 1%positive = Some Scenario.receipt)
    by reflexivity.
  assert (Hrun : DeliverEvent 1 0 5 Scenario.built = Some (Scenario.tracked 0))
    by (vm_compute; reflexivity).
  split; [exact Hev |]. split; [exact Hrun |]. split; [reflexivity |].
  destruct (pending_count_after_submit 1 0 5 _ _ _ Hev Hrun) as [Hnew _].
  split; [rewrite Hnew; reflexivity |].
  eexists. split; [vm_compute; reflexivity |]. reflexivity.
Defined.

(** X4: A cycle lowers the pending count by exactly one when it ends the
    record (all adapters succeeded, or the retries are used up) and an entry
    is filed under the record's id; in every other case the count is
    unchanged. *)
Theorem pending_count_after_cycle env ref w event w' :
  heap w !! ref = Some event ->
  processDelivery env ref w = Some w' ->
  let ended :=
    forallb Success (dispatch env event).*1 = true \/
    maxRetries (dm w) <= Int64.wrap (AttemptCount event + 1) in
  (ended -> is_Some (pendingEvents (dm w) !! ID event) ->
   GetPendingEventsCount w' = GetPendingEventsCount w - 1) /\
  (ended -> pendingEvents (dm w) !! ID event = None ->
   GetPendingEventsCount w' = GetPendingEventsCount w) /\
  (~ ended -> pendingEvents (dm w') = pendingEvents (dm w) /\
              GetPendingEventsCount w' = GetPendingEventsCount w).
Proof.
  intros Hev Hrun ended. rewrite (processDelivery_unfold _ _ _ _ Hev) in Hrun.
  injection Hrun as <-. unfold GetPendingEventsCount.
  assert (Hdel : is_Some (pendingEvents (dm w) !! ID event) ->
            Z.of_nat (size (delete (ID event) (pendingEvents (dm w)))) =
            Z.of_nat (size (pendingEvents (dm w))) - 1).
  { intros Hsome. rewrite map_size_delete_Some by done.
    destruct Hsome as [r Hr].
    assert (size (pendingEvents (dm w)) <> 0%nat).
    { intros Hz. apply map_size_empty_inv in Hz. rewrite Hz in Hr.
      by rewrite lookup_empty in Hr. }
    lia. }
  destruct (forallb Success (dispatch env event).*1) eqn:Hall.
  - rewrite update_status_success. simpl. split; [auto |]. split.
    + intros _ Hnone. by rewrite map_size_delete_None.
    + intros Hne. exfalso. apply Hne. by left.
  - destruct (decide (maxRetries (dm w) <= Int64.wrap (AttemptCount event + 1)))
      as [Hmax | Hmax].
    + rewrite update_status_exhausted by done. simpl. split; [auto |]. split.
      * intros _ Hnone. by rewrite map_size_delete_None.
      * intros Hne. exfalso. apply Hne. by right.
    + rewrite update_status_retry by (simpl; lia). simpl.
      split; [| split].
      * intros [Hs | Hm]; [discriminate | lia].
      * intros [Hs | Hm]; [discriminate | lia].
      * done.
Qed.

Lemma pending_count_after_cycle_witness :
  heap (Scenario.tracked 2) !! 1%positive
    = Some (set_AttemptCount 2 Scenario.receipt) /\
  processDelivery Scenario.broker_down 1 (Scenario.tracked 2)
    = Some (mkWorld (heap Scenario.exhausted) (dm Scenario.exhausted)
              [1%positive] (network Scenario.exhausted)) /\
  GetPendingEventsCount (Scenario.tracked 2) = 1 /\
  GetPendingEventsCount Scenario.exhausted = 0.
Proof.
  assert (Hev : heap (Scenario.tracked 2) !! 1%positive
                = Some (set_AttemptCount 2 Scenario.receipt)) by reflexivity.
  assert (Hrun : processDelivery Scenario.broker_down 1 (Scenario.tracked 2)
                 = Some (mkWorld (heap Scenario.exhausted) (dm Scenario.exhausted)
                           [1%positive] (network Scenario.exhausted)))
    by (vm_compute; reflexivity).
  split; [exact Hev |]. split; [exact Hrun |]. split; [reflexivity |].
  destruct (pending_count_after_cycle _ _ _ _ _ Hev Hrun) as [Hdown _].
  change (GetPendingEventsCount Scenario.exhausted)
    with (GetPendingEventsCount
            (mkWorld (heap Scenario.exhausted) (dm Scenario.exhausted)
               [1%positive] (network Scenario.exhausted))).
  rewrite Hdown.
  - reflexivity.
  - right. vm_compute. discriminate.
  - by eexists.
Defined.

(** ** A record that keeps failing *)

(** The adapters read the tenant, token, event type, body and file path
    of a record and nothing else. *)
Lemma dispatch_same_content env e1 e2 :
  same_content e1 e2 -> dispatch env e1 = dispatch env e2.
Proof.
  intros (Hu & Ht & Hy & Hj & Hf).
  unfold dispatch, deliverToUserWebhook, deliverToGlobalWebhook,
    deliverToRabbitMQ.
  by rewrite Hu, Ht, Hy, Hj, Hf.
Qed.

Lemma failing_same_content env e1 e2 :
  same_content e1 e2 -> failing env e1 -> failing env e2.
Proof.
  intros Hsame. unfold failing. by rewrite (dispatch_same_content _ _ _ Hsame).
Qed.

Lemma cycles_cons env envs ref w :
  cycles (env :: envs) ref w =
  match processDelivery env ref w with
  | Some w1 => cycles envs ref w1
  | None => None
  end.
Proof.
  unfold cycles. simpl. destruct (processDelivery env ref w); [done |].
  simpl. induction envs as [|e envs IH]; [done | exact IH].
Qed.

Lemma cycles_snoc envs env ref w :
  cycles (envs ++ [env]) ref w = cycles envs ref w ≫= processDelivery env ref.
Proof. unfold cycles. by rewrite foldl_app. Qed.

(** Failing cycles below the retry limit only count. *)
Lemma cycles_below envs ref w event :
  heap w !! ref = Some event ->
  Int64.in_range (AttemptCount event) ->
  Int64.in_range (maxRetries (dm w)) ->
  AttemptCount event + Z.of_nat (length envs) < maxRetries (dm w) ->
  (forall env, env ∈ envs -> failing env event) ->
  exists w',
    cycles envs ref w = Some w' /\
    heap w' !! ref =
      Some (set_AttemptCount (AttemptCount event + Z.of_nat (length envs)) event) /\
    dm w' = dm w.
Proof.
  revert w event. induction envs as [|env envs IH]; intros w event Hev Ha Hm Hlt Hfail.
  - exists w. split; [reflexivity |]. split; [| reflexivity].
    rewrite Hev. f_equal. simpl. rewrite Z.add_0_r. by destruct event.
  - rewrite cycles_cons.
    assert (Hf : failing env event) by (apply Hfail; left).
    rewrite (processDelivery_failing _ _ _ _ Hev Hf).
    assert (Hw : Int64.wrap (AttemptCount event + 1) = AttemptCount event + 1).
    { apply wrap_succ. unfold Int64.in_range in *. simpl length in Hlt. lia. }
    simpl length in Hlt.
    rewrite update_status_retry by (simpl; lia). rewrite Hw.
    set (e1 := set_AttemptCount (AttemptCount event + 1) event).
    set (w1 := mkWorld _ _ _ _).
    destruct (IH w1 e1) as (w' & Hrun & Hlook & Hdm).
    + subst w1. simpl. apply lookup_insert_eq.
    + subst e1. simpl. unfold Int64.in_range in *. lia.
    + done.
    + subst e1 w1. simpl. lia.
    + intros env' Hin. apply (failing_same_content env' event e1).
      * by repeat split.
      * apply Hfail. by right.
    + exists w'. split; [exact Hrun |]. split; [| by rewrite Hdm].
      rewrite Hlook. f_equal. subst e1. simpl length.
      replace (AttemptCount event + Z.of_nat (S (length envs)))
        with (AttemptCount (set_AttemptCount (AttemptCount event + 1) event)
              + Z.of_nat (length envs)) by (simpl; lia).
      reflexivity.
Qed.

Lemma cycles_exhaust envs ref w event :
  heap w !! ref = Some event ->
  Int64.in_range (AttemptCount event) ->
  Int64.in_range (maxRetries (dm w)) ->
  AttemptCount event < maxRetries (dm w) ->
  Z.of_nat (length envs) = maxRetries (dm w) - AttemptCount event ->
  (forall env, env ∈ envs -> failing env event) ->
  (exists w',
     cycles envs ref w = Some w' /\
     heap w' !! ref =
       Some (set_LastError "Max retries exceeded"
               (set_Status DeliveryStatusFailed
                  (set_AttemptCount (maxRetries (dm w)) event))) /\
     pendingEvents (dm w') = delete (ID event) (pendingEvents (dm w))) /\
  (forall k, (k < length envs)%nat ->
     exists wk,
       cycles (take k envs) ref w = Some wk /\
       heap wk !! ref = Some (set_AttemptCount (AttemptCount event + Z.of_nat k) event) /\
       pendingEvents (dm wk) = pendingEvents (dm w)).
Proof.
  intros Hev Ha Hm Hlt Hlen Hfail. split.
  - destruct envs as [|env0 envs0] using rev_ind; [simpl in Hlen; lia |].
    clear IHenvs0. rewrite length_app in Hlen. simpl in Hlen.
    destruct (cycles_below envs0 ref w event Hev Ha Hm) as (w1 & Hrun & Hlook & Hdm).
    { lia. }
    { intros env Hin. apply Hfail, elem_of_app. by left. }
    rewrite cycles_snoc, Hrun. simpl.
    remember (set_AttemptCount (AttemptCount event + Z.of_nat (length envs0)) event)
      as e1 eqn:He1.
    assert (Hf : failing env0 e1).
    { apply (failing_same_content env0 event e1); [by subst e1 |].
      apply Hfail, elem_of_app. right. by apply list_elem_of_singleton. }
    rewrite (processDelivery_failing _ _ _ _ Hlook Hf).
    assert (Hw : Int64.wrap (AttemptCount e1 + 1) = maxRetries (dm w)).
    { subst e1. simpl. rewrite wrap_succ; unfold Int64.in_range in *; lia. }
    rewrite update_status_exhausted; cycle 1.
    { cbn [dm]. rewrite Hdm, Hw. lia. }
    rewrite Hw. eexists. split; [reflexivity |]. cbn [heap dm pendingEvents].
    rewrite lookup_insert_eq, Hdm. subst e1. split; reflexivity.
  - intros k Hk.
    destruct (cycles_below (take k envs) ref w event Hev Ha Hm)
      as (wk & Hrun & Hlook & Hdm).
    { rewrite length_take. lia. }
    { intros env Hin. apply Hfail. by apply (subseteq_take k envs). }
    exists wk. split; [exact Hrun |].
    rewrite length_take in Hlook.
    replace (k `min` length envs)%nat with k in Hlook by lia.
    split; [exact Hlook | by rewrite Hdm].
Qed.

(** X5: A record that fails every cycle: with [a] attempts counted and
    [maxRetries - a] failing cycles run one after the other, the last of
    them marks the record Failed with exactly [maxRetries] attempts and
    removes its id from the pending map; after any smaller number [k] of
    these cycles the record only has its count raised to [a + k] and the
    pending map is as before. *)
Theorem failing_record_exhausts_retries envs ref w event :
  heap w !! ref = Some event ->
  Int64.in_range (AttemptCount event) ->
  Int64.in_range (maxRetries (dm w)) ->
  AttemptCount event < maxRetries (dm w) ->
  Z.of_nat (length envs) = maxRetries (dm w) - AttemptCount event ->
  (forall env, env ∈ envs -> failing env event) ->
  (exists w',
     cycles envs ref w = Some w' /\
     heap w' !! ref =
       Some (set_LastError "Max retries exceeded"
               (set_Status DeliveryStatusFailed
                  (set_AttemptCount (maxRetries (dm w)) event))) /\
     pendingEvents (dm w') = delete (ID event) (pendingEvents (dm w))) /\
  (forall k, (k < length envs)%nat ->
     exists wk,
       cycles (take k envs) ref w = Some wk /\
       heap wk !! ref = Some (set_AttemptCount (AttemptCount event + Z.of_nat k) event) /\
       pendingEvents (dm wk) = pendingEvents (dm w)).
Proof.
  intros Hev Ha Hm Hlt Hlen Hfail. split.
  - destruct envs as [|env0 envs0] using rev_ind; [simpl in Hlen; lia |].
    clear IHenvs0. rewrite length_app in Hlen. simpl in Hlen.
    destruct (cycles_below envs0 ref w event Hev Ha Hm) as (w1 & Hrun & Hlook & Hdm).
    { lia. }
    { intros env Hin. apply Hfail, elem_of_app. by left. }
    rewrite cycles_snoc, Hrun. simpl.
    remember (set_AttemptCount (AttemptCount event + Z.of_nat (length envs0)) event)
      as e1 eqn:He1.
    assert (Hf : failing env0 e1).
    { apply (failing_same_content env0 event e1); [by subst e1 |].
      apply Hfail, elem_of_app. right. by apply list_elem_of_singleton. }
    rewrite (processDelivery_failing _ _ _ _ Hlook Hf).
    assert (Hw : Int64.wrap (AttemptCount e1 + 1) = maxRetries (dm w)).
    { subst e1. simpl. rewrite wrap_succ; unfold Int64.in_range in *; lia. }
    rewrite update_status_exhausted; cycle 1.
    { cbn [dm]. rewrite Hdm, Hw. lia. }
    rewrite Hw. eexists. split; [reflexivity |]. cbn [heap dm pendingEvents].
    rewrite lookup_insert_eq, Hdm. subst e1. split; reflexivity.
  - intros k Hk.
    destruct (cycles_below (take k envs) ref w event Hev Ha Hm)
      as (wk & Hrun & Hlook & Hdm).
    { rewrite length_take. lia. }
    { intros env Hin. apply Hfail. by apply (subseteq_take k envs). }
    exists wk. split; [exact Hrun |].
    rewrite length_take in Hlook.
    replace (k `min` length envs)%nat with k in Hlook by lia.
    split; [exact Hlook | by rewrite Hdm].
Qed.

Lemma broker_down_failing event :
  failing Scenario.broker_down event.
Proof.
  exists (deliverToRabbitMQ Scenario.broker_down event).1. split.
  - unfold dispatch. rewrite !fmap_app, !elem_of_app. right. right.
    simpl. by apply list_elem_of_singleton.
  - reflexivity.
Qed.

Lemma failing_record_exhausts_retries_witness :
  heap (Scenario.tracked 0) !! 1%positive = Some Scenario.receipt /\
  Int64.in_range 0 /\ Int64.in_range 3 /\
  exists w',
    cycles [Scenario.broker_down; Scenario.broker_down; Scenario.broker_down]
      1 (Scenario.tracked 0) = Some w' /\
    heap w' !! 1%positive =
      Some (set_LastError "Max retries exceeded"
              (set_Status DeliveryStatusFailed
                 (set_AttemptCount 3 Scenario.receipt))) /\
    pendingEvents (dm w') = ∅.
Proof.
  assert (Hev : heap (Scenario.tracked 0) !! 1%positive = Some Scenario.receipt)
    by reflexivity.
  assert (Ha : Int64.in_range 0) by (vm_compute; split; discriminate).
  assert (Hm : Int64.in_range 3) by (vm_compute; split; discriminate).
  split; [exact Hev |]. split; [exact Ha |]. split; [exact Hm |].
  destruct (failing_record_exhausts_retries
              [Scenario.broker_down; Scenario.broker_down; Scenario.broker_down]
              1 (Scenario.tracked 0) Scenario.receipt Hev Ha Hm)
    as [(w' & Hrun & Hlook & Hp) _].
  - reflexivity.
  - reflexivity.
  - intros env Hin.
    assert (env = Scenario.broker_down) as ->.
    { repeat (apply elem_of_cons in Hin as [-> | Hin]; [reflexivity |]).
      by apply elem_of_nil in Hin. }
    apply broker_down_failing.
  - exists w'. split; [exact Hrun |]. split; [exact Hlook |].
    rewrite Hp. vm_compute. reflexivity.
Defined.

(** X6: [ForceRetry] gives a tracked record its full budget back: whatever
    its attempt count was, after the reset it takes [maxRetries] failing
    cycles to mark it Failed and remove its id, and it stays tracked and
    Pending, with [k] attempts counted, after any smaller number [k] of
    them. *)
Theorem ForceRetry_restores_budget eventID clockAt range envs w ref event :
  eventID <> "" ->
  pendingEvents (dm w) !! eventID = Some ref ->
  heap w !! ref = Some event ->
  ID event = eventID ->
  Int64.in_range (maxRetries (dm w)) ->
  0 < maxRetries (dm w) ->
  Z.of_nat (length envs) = maxRetries (dm w) ->
  (forall env, env ∈ envs -> failing env event) ->
  exists resp w1 w2,
    ForceRetry eventID clockAt range (Some w) = Some (resp, Some w1) /\
    code resp = StatusOK /\
    cycles envs ref w1 = Some w2 /\
    heap w2 !! ref =
      Some (set_LastError "Max retries exceeded"
              (set_Status DeliveryStatusFailed
                 (set_AttemptCount (maxRetries (dm w)) event))) /\
    pendingEvents (dm w2) !! eventID = None /\
    forall k, (k < length envs)%nat ->
      exists wk,
        cycles (take k envs) ref w1 = Some wk /\
        pendingEvents (dm wk) !! eventID = Some ref /\
        heap wk !! ref =
          Some (set_AttemptCount (Z.of_nat k)
                  (set_Status DeliveryStatusPending event)).
Proof.
  intros Hid Hp Hev Hown Hm Hpos Hlen Hfail.
  rewrite (ForceRetry_tracked _ clockAt range _ _ _ Hid Hp Hev).
  set (e1 := set_Status DeliveryStatusPending (set_AttemptCount 0 event)).
  set (w1 := mkWorld _ _ _ _).
  assert (Hev1 : heap w1 !! ref = Some e1) by apply lookup_insert_eq.
  assert (Ha1 : Int64.in_range (AttemptCount e1)).
  { subst e1. simpl. vm_compute. split; discriminate. }
  destruct (cycles_exhaust envs ref w1 e1 Hev1 Ha1 Hm)
    as [(w2 & Hrun & Hlook & Hdel) Hbelow].
  { exact Hpos. }
  { subst e1 w1. simpl. lia. }
  { intros env Hin. apply (failing_same_content env event e1); [done |].
    by apply Hfail. }
  eexists _, w1, w2. split; [reflexivity |]. split; [reflexivity |].
  split; [exact Hrun |]. split; [exact Hlook |]. split.
  - rewrite Hdel. subst e1. simpl. rewrite Hown. apply lookup_delete_eq.
  - intros k Hk. destruct (Hbelow k Hk) as (wk & Hrunk & Hlookk & Hpk).
    exists wk. split; [exact Hrunk |]. split; [by rewrite Hpk |].
    exact Hlookk.
Qed.

Lemma ForceRetry_restores_budget_witness :
  "evt-1" <> "" /\
  pendingEvents (dm (Scenario.tracked 2)) !! "evt-1" = Some 1%positive /\
  heap (Scenario.tracked 2) !! 1%positive
    = Some (set_AttemptCount 2 Scenario.receipt) /\
  exists resp w1 w2,
    ForceRetry "evt-1" (fun _ => 0) [] (Some (Scenario.tracked 2))
      = Some (resp, Some w1) /\
    cycles [Scenario.broker_down; Scenario.broker_down; Scenario.broker_down]
      1 w1 = Some w2 /\
    heap w2 !! 1%positive =
      Some (set_LastError "Max retries exceeded"
              (set_Status DeliveryStatusFailed
                 (set_AttemptCount 3 Scenario.receipt))).
Proof.
  assert (Hid : "evt-1" <> "") by discriminate.
  split; [exact Hid |]. split; [reflexivity |]. split; [reflexivity |].
  destruct (ForceRetry_restores_budget "evt-1" (fun _ => 0) []
              [Scenario.broker_down; Scenario.broker_down; Scenario.broker_down]
              (Scenario.tracked 2) 1 (set_AttemptCount 2 Scenario.receipt) Hid)
    as (resp & w1 & w2 & Hforce & _ & Hrun & Hlook & _).
  - reflexivity.
  - reflexivity.
  - reflexivity.
  - vm_compute. split; discriminate.
  - reflexivity.
  - reflexivity.
  - intros env Hin.
    assert (env = Scenario.broker_down) as ->.
    { repeat (apply elem_of_cons in Hin as [-> | Hin]; [reflexivity |]).
      by apply elem_of_nil in Hin. }
    apply broker_down_failing.
  - exists resp, w1, w2. split; [exact Hforce |]. split; [exact Hrun |].
    exact Hlook.
Defined.

(** ** No back-off between retries *)

Lemma time_Since_mono now now' t :
  now <= now' -> time_Since now t <= time_Since now' t.
Proof. unfold time_Since, Int64.clamp. lia. Qed.

(** X7: The age of a record is measured from its creation and a cycle never
    moves that instant: a record that was eligible for a retry and failed
    again, short of the limit, is eligible again at every later clock
    reading, however soon after the failed cycle. *)
Theorem failed_retry_stays_eligible env ref w event now now' :
  heap w !! ref = Some event ->
  retry_condition (dm w) now event = true ->
  failing env event ->
  Int64.wrap (AttemptCount event + 1) < maxRetries (dm w) ->
  now <= now' ->
  exists w' event',
    processDelivery env ref w = Some w' /\
    heap w' !! ref = Some event' /\
    CreatedAt event' = CreatedAt event /\
    retry_condition (dm w') now' event' = true.
Proof.
  intros Hev Hcond Hfail Hlt Hnow.
  rewrite (processDelivery_failing _ _ _ _ Hev Hfail).
  rewrite update_status_retry by done.
  eexists _, _. split; [reflexivity |]. simpl. rewrite lookup_insert_eq.
  split; [reflexivity |]. split; [reflexivity |].
  apply retry_condition_true in Hcond as (Hst & _ & Hage).
  apply retry_condition_true. simpl. split; [exact Hst |]. split; [exact Hlt |].
  pose proof (time_Since_mono now now' (CreatedAt event) Hnow). lia.
Qed.

Lemma failed_retry_stays_eligible_witness :
  heap (Scenario.tracked 0) !! 1%positive = Some Scenario.receipt /\
  retry_condition (dm (Scenario.tracked 0)) (3 * second) Scenario.receipt = true /\
  exists w' event',
    processDelivery Scenario.broker_down 1 (Scenario.tracked 0) = Some w' /\
    heap w' !! 1%positive = Some event' /\
    retry_condition (dm w') (3 * second + 1) event' = true.
Proof.
  assert (Hev : heap (Scenario.tracked 0) !! 1%positive = Some Scenario.receipt)
    by reflexivity.
  assert (Hcond : retry_condition (dm (Scenario.tracked 0)) (3 * second)
                    Scenario.receipt = true) by (vm_compute; reflexivity).
  split; [exact Hev |]. split; [exact Hcond |].
  destruct (failed_retry_stays_eligible Scenario.broker_down 1
              (Scenario.tracked 0) Scenario.receipt (3 * second) (3 * second + 1)
              Hev Hcond (broker_down_failing _))
    as (w' & event' & Hrun & Hlook & _ & Hagain).
  - vm_compute. reflexivity.
  - vm_compute. discriminate.
  - exists w', event'. split; [exact Hrun |]. split; [exact Hlook |].
    exact Hagain.
Defined.

(** ** Generated ids *)

Lemma Sprintf_id_inj userID n1 n2 :
  Sprintf_id userID n1 = Sprintf_id userID n2 -> n1 = n2.
Proof.
  unfold Sprintf_id. intros H.
  apply (inj (String.app userID)) in H.
  apply (inj (String.app "_")) in H.
  by apply (inj pretty) in H.
Qed.

(** X8: Two records built without an id by the same tenant get the same
    generated id exactly when their submissions read the same nanosecond
    clock value.  With different readings both are tracked; with equal
    readings the second submission takes over the entry of the first. *)
Theorem generated_ids_collide_iff_same_nanos r1 r2 now1 n1 now2 n2 w e1 e2 w1 w2 :
  r1 <> r2 ->
  heap w !! r1 = Some e1 ->
  heap w !! r2 = Some e2 ->
  ID e1 = "" ->
  ID e2 = "" ->
  UserID e1 = UserID e2 ->
  DeliverEvent r1 now1 n1 w = Some w1 ->
  DeliverEvent r2 now2 n2 w1 = Some w2 ->
  (stored_id e1 n1 = stored_id e2 n2 <-> n1 = n2) /\
  (n1 <> n2 ->
   pendingEvents (dm w2) !! stored_id e1 n1 = Some r1 /\
   pendingEvents (dm w2) !! stored_id e2 n2 = Some r2) /\
  (n1 = n2 ->
   pendingEvents (dm w2) !! stored_id e1 n1 = Some r2 /\
   GetPendingEventsCount w2 = GetPendingEventsCount w1).
Proof.
  intros Hne He1 He2 Hid1 Hid2 Hu Hrun1 Hrun2.
  assert (Hiff : stored_id e1 n1 = stored_id e2 n2 <-> n1 = n2).
  { unfold stored_id. rewrite Hid1, Hid2. simpl. rewrite Hu. split.
    - apply Sprintf_id_inj.
    - by intros ->. }
  rewrite (DeliverEvent_unfold _ _ _ _ _ He1) in Hrun1.
  injection Hrun1 as <-.
  assert (He2' : heap (mkWorld
                   (<[r1 := set_ID (stored_id e1 n1)
                              (set_Status DeliveryStatusPending
                                 (set_CreatedAt now1 e1))]> (heap w))
                   (mkDeliveryManager
                      (<[stored_id e1 n1 := r1]> (pendingEvents (dm w)))
                      (maxRetries (dm w)) (retryBackoff (dm w)) (timeout (dm w)))
                   (goroutines w ++ [r1]) (network w)) !! r2 = Some e2).
  { simpl. by rewrite lookup_insert_ne. }
  rewrite (DeliverEvent_unfold _ _ _ _ _ He2') in Hrun2.
  injection Hrun2 as <-. unfold GetPendingEventsCount. simpl.
  split; [exact Hiff |]. split.
  - intros Hn. assert (Hids : stored_id e2 n2 <> stored_id e1 n1).
    { intros Heq. apply Hn. by apply Hiff. }
    rewrite lookup_insert_ne by done. rewrite !lookup_insert_eq. done.
  - intros Hn. apply Hiff in Hn. rewrite Hn, lookup_insert_eq.
    split; [done |]. rewrite map_size_insert_Some; [done |].
    rewrite lookup_insert_eq. by eexists.
Qed.

Lemma generated_ids_collide_iff_same_nanos_witness :
  exists w1 w2,
    DeliverEvent 1 10 1000 Cases.two_built = Some w1 /\
    DeliverEvent 2 11 1001 w1 = Some w2 /\
    pendingEvents (dm w2) !! "u1_1000" = Some 1%positive /\
    pendingEvents (dm w2) !! "u1_1001" = Some 2%positive.
Proof.
  destruct (DeliverEvent 1 10 1000 Cases.two_built) as [w1|] eqn:Hrun1;
    [| vm_compute in Hrun1; discriminate Hrun1].
  destruct (DeliverEvent 2 11 1001 w1) as [w2|] eqn:Hrun2.
  - exists w1, w2. split; [reflexivity |]. split; [exact Hrun2 |].
    destruct (generated_ids_collide_iff_same_nanos 1 2 10 1000 11 1001
                Cases.two_built (Cases.anonymous "{1}") (Cases.anonymous "{2}")
                w1 w2) as (_ & Hboth & _);
      [discriminate | reflexivity | reflexivity | reflexivity | reflexivity
      | reflexivity | exact Hrun1 | exact Hrun2 |].
    apply Hboth. discriminate.
  - exfalso. vm_compute in Hrun1. injection Hrun1 as <-.
    vm_compute in Hrun2. discriminate Hrun2.
Defined.

(** ** Entries leave the pending map only through a cycle *)

(** X9: One operation keeps an entry of the pending map unless it is a
    submission stored under the same id, which replaces the entry, or the
    cycle of a record carrying that id which ends with the status
    Delivered or Failed, which removes it. *)
Theorem entry_leaves_only_when_ended w op w' id ref :
  step w op w' ->
  pendingEvents (dm w) !! id = Some ref ->
  pendingEvents (dm w') !! id = Some ref \/
  (exists r now idnow event,
      op = OpDeliverEvent r now idnow /\
      heap w !! r = Some event /\
      stored_id event idnow = id /\
      pendingEvents (dm w') !! id = Some r) \/
  (exists env i r event event',
      op = OpProcessDelivery env i /\
      goroutines w !! i = Some r /\
      heap w !! r = Some event /\
      ID event = id /\
      heap w' !! r = Some event' /\
      (Status event' = DeliveryStatusDelivered \/
       Status event' = DeliveryStatusFailed) /\
      pendingEvents (dm w') !! id = None).
Proof.
  intros Hstep Hp. apply step_cases in Hstep
    as [(e & _ & ->) | [(r & now & idnow & -> & Hrun) |
        [(env & i & r & event & u & -> & Hi & Hev & -> & ->) |
         [(c & rg & sel & _ & _ & _ & ->) |
          [(eid & c & rg & resp & _ & _ & Hrun) |
           (st6 & r6 & e6 & _ & _ & _ & ->)]]]]]; [| | | | | by left].
  - by left.
  - apply DeliverEvent_world in Hrun as (event & Hev & ->). simpl.
    destruct (decide (stored_id event idnow = id)) as [Heq | Hne].
    + right. left. exists r, now, idnow, event.
      rewrite Heq, lookup_insert_eq. done.
    + left. by rewrite lookup_insert_ne.
  - cbn [dm heap].
    destruct (update_status_cases
                (forallb Success (dispatch env event).*1) r event
                (mkWorld (heap w) (dm w) (goroutines w)
                   (network w ++ concat (dispatch env event).*2)))
      as (_ & _ & _ & [[Hh Hd] | [[Hh Hd] | [Hh Hd]]]); simpl in Hh, Hd.
    + destruct (decide (ID event = id)) as [Heq | Hne].
      * right. right. exists env, i, r, event. eexists.
        split; [done |]. split; [done |]. split; [done |]. split; [done |].
        rewrite Hh, Hd, lookup_insert_eq, Heq, lookup_delete_eq.
        split; [reflexivity |]. split; [by left | done].
      * left. rewrite Hd. by rewrite lookup_delete_ne.
    + destruct (decide (ID event = id)) as [Heq | Hne].
      * right. right. exists env, i, r, event. eexists.
        split; [done |]. split; [done |]. split; [done |]. split; [done |].
        rewrite Hh, Hd, lookup_insert_eq. simpl. rewrite Heq, lookup_delete_eq.
        split; [reflexivity |]. split; [by right | done].
      * left. rewrite Hd. simpl. by rewrite lookup_delete_ne.
    + left. by rewrite Hd.
  - by left.
  - left. apply ForceRetry_cases in Hrun
      as [(sel & _ & ->) | [-> | (r & event & _ & _ & ->)]]; done.
Qed.

Lemma entry_leaves_only_when_ended_witness :
  step (Scenario.tracked 2) (OpProcessDelivery Scenario.broker_down 0)
    Scenario.exhausted /\
  pendingEvents (dm (Scenario.tracked 2)) !! "evt-1" = Some 1%positive /\
  pendingEvents (dm Scenario.exhausted) !! "evt-1" = None /\
  exists event',
    heap Scenario.exhausted !! 1%positive = Some event' /\
    Status event' = DeliveryStatusFailed.
Proof.
  assert (Hstep : step (Scenario.tracked 2)
                    (OpProcessDelivery Scenario.broker_down 0)
                    Scenario.exhausted).
  { split; [exact I | vm_compute; reflexivity]. }
  assert (Hp : pendingEvents (dm (Scenario.tracked 2)) !! "evt-1"
               = Some 1%positive) by reflexivity.
  split; [exact Hstep |]. split; [exact Hp |]. split; [reflexivity |].
  destruct (entry_leaves_only_when_ended _ _ _ _ _ Hstep Hp)
    as [Hkept | [(r & now & idnow & event & Hop & _) |
                 (env & i & r & event & event' & Hop & Hi & _ & _ & Hev' & _)]].
  - discriminate Hkept.
  - discriminate Hop.
  - eexists. split; reflexivity.
Defined.

(** X10: A cycle removes whatever entry is filed under its record's id.  When
    the id has been submitted again in the meantime, the cycle of the
    earlier record that ends (success or retries used up) removes the entry
    of the later record: that record is left untouched and still Pending,
    but it is no longer tracked, so [GetEventStatus] and [ForceRetry] do
    not find it. *)
Theorem ended_cycle_evicts_resubmitted_record
    env ref other w event otherEvent clockAt range :
  tracked_pending w ->
  heap w !! ref = Some event ->
  pendingEvents (dm w) !! ID event = Some other ->
  other <> ref ->
  heap w !! other = Some otherEvent ->
  (forall r, r ∈ (dispatch env event).*1 -> Success r = true) \/
  (failing env event /\
   maxRetries (dm w) <= Int64.wrap (AttemptCount event + 1)) ->
  exists w',
    processDelivery env ref w = Some w' /\
    heap w' !! other = Some otherEvent /\
    ID otherEvent = ID event /\
    Status otherEvent = DeliveryStatusPending /\
    (forall id, pendingEvents (dm w') !! id <> Some other) /\
    GetEventStatus (ID otherEvent) w' = (None, false) /\
    ForceRetry (ID otherEvent) clockAt range (Some w') =
      Some (mkResponse StatusNotFound (BodyText "Event not found"), Some w').
Proof.
  intros Hinv Hev Hp Hne Hother Hended.
  destruct (Hinv _ _ Hp) as (e0 & He0 & Hid0 & Hnonempty & Hst0).
  rewrite Hother in He0. injection He0 as <-.
  assert (Huntracked : forall id,
            delete (ID event) (pendingEvents (dm w)) !! id <> Some other).
  { intros id Hid. apply lookup_delete_Some in Hid as [Hneq Hid].
    destruct (Hinv _ _ Hid) as (e1 & He1 & Hid1 & _).
    rewrite Hother in He1. injection He1 as <-. congruence. }
  assert (Hgone : delete (ID event) (pendingEvents (dm w)) !! ID otherEvent = None)
    by (rewrite Hid0; apply lookup_delete_eq).
  destruct Hended as [Hok | [Hfail Hmax]].
  - rewrite (processDelivery_succeeding _ _ _ _ Hev Hok).
    rewrite update_status_success. eexists. split; [reflexivity |].
    cbn [heap dm pendingEvents].
    split; [by rewrite lookup_insert_ne |]. split; [done |]. split; [done |].
    split; [exact Huntracked |].
    split; [by apply GetEventStatus_None |].
    apply ForceRetry_untracked; [congruence | done].
  - rewrite (processDelivery_failing _ _ _ _ Hev Hfail).
    rewrite update_status_exhausted by done. eexists. split; [reflexivity |].
    cbn [heap dm pendingEvents].
    split; [by rewrite lookup_insert_ne |]. split; [done |]. split; [done |].
    split; [exact Huntracked |].
    split; [by apply GetEventStatus_None |].
    apply ForceRetry_untracked; [congruence | done].
Qed.

Lemma resubmitted_reachable :
  run (fun _ _ => True) initial
    [OpNew Scenario.receipt; OpDeliverEvent 1 0 5;
     OpNew Scenario.receipt; OpDeliverEvent 2 50 55]
    Cases.resubmitted.
Proof.
  apply (run_cons _ _ _ Scenario.built);
    [exact I | split; [exact I | vm_compute; reflexivity] |].
  apply (run_cons _ _ _ (Scenario.tracked 0));
    [exact I | split; [exact I | vm_compute; reflexivity] |].
  eapply run_cons; [exact I | split; [exact I | vm_compute; reflexivity] |].
  eapply run_cons; [exact I | split; [exact I | vm_compute; reflexivity] |].
  apply run_nil.
Qed.

Lemma ended_cycle_evicts_resubmitted_record_witness :
  tracked_pending Cases.resubmitted /\
  heap Cases.resubmitted !! 1%positive = Some Scenario.receipt /\
  pendingEvents (dm Cases.resubmitted) !! "evt-1" = Some 2%positive /\
  exists w',
    processDelivery Scenario.all_up 1 Cases.resubmitted = Some w' /\
    heap w' !! 2%positive = Some (set_CreatedAt 50 Scenario.receipt) /\
    GetEventStatus "evt-1" w' = (None, false).
Proof.
  assert (Hinv : tracked_pending Cases.resubmitted).
  { apply (run_tracked_pending _ _ _ _ resubmitted_reachable),
      tracked_pending_initial. }
  split; [exact Hinv |]. split; [reflexivity |]. split; [reflexivity |].
  destruct (ended_cycle_evicts_resubmitted_record Scenario.all_up 1 2
              Cases.resubmitted Scenario.receipt
              (set_CreatedAt 50 Scenario.receipt) (fun _ => 0) [] Hinv)
    as (w' & Hrun & Hother & _ & _ & _ & Hget & _).
  - reflexivity.
  - reflexivity.
  - discriminate.
  - reflexivity.
  - left. apply forallb_Success. vm_compute. reflexivity.
  - exists w'. split; [exact Hrun |]. split; [exact Hother | exact Hget].
Defined.

(** ** Outgoing calls *)

Lemma result_of_sound env channel start stop call :
  sound_attempt env (result_of channel start stop (respond env call), [call]).
Proof.
  right. exists call. split; [reflexivity |].
  destruct (respond env call) as [msg|] eqn:Hr; simpl.
  - right. by exists msg.
  - by left.
Qed.

Lemma deliverToUserWebhook_sound env event webhookURL :
  sound_attempt env (deliverToUserWebhook env event webhookURL).
Proof.
  unfold deliverToUserWebhook. destruct (clock env "webhook") as [start stop].
  destruct (GetHTTPClient env (UserID event)); simpl.
  - apply result_of_sound.
  - left. by repeat split.
Qed.

Lemma deliverToGlobalWebhook_sound env event :
  sound_attempt env (deliverToGlobalWebhook env event).
Proof.
  unfold deliverToGlobalWebhook.
  destruct (clock env "global_webhook") as [start stop].
  destruct (GetHTTPClient env (UserID event)); simpl.
  - apply result_of_sound.
  - left. by repeat split.
Qed.

Lemma deliverToRabbitMQ_sound env event :
  sound_attempt env (deliverToRabbitMQ env event).
Proof.
  unfold deliverToRabbitMQ. destruct (clock env "rabbitmq") as [start stop].
  destruct (ctxDone env); simpl.
  - left. by repeat split.
  - apply result_of_sound.
Qed.

Lemma dispatch_sound env event attempt :
  attempt ∈ dispatch env event -> sound_attempt env attempt.
Proof.
  unfold dispatch. rewrite !elem_of_app. intros [Hin | [Hin | Hin]].
  - destruct (decide _); [by apply elem_of_nil in Hin |].
    apply list_elem_of_singleton in Hin as ->. apply deliverToUserWebhook_sound.
  - destruct (decide _); [by apply elem_of_nil in Hin |].
    apply list_elem_of_singleton in Hin as ->. apply deliverToGlobalWebhook_sound.
  - destruct (rabbitEnabled env); [| by apply elem_of_nil in Hin].
    apply list_elem_of_singleton in Hin as ->. apply deliverToRabbitMQ_sound.
Qed.

(** X11: No channel is reported delivered without having been called: every
    adapter run of a cycle makes at most one outgoing call, reports success
    only if it made the call and the call returned no error, and reports
    the call's own error when there was one. *)
Theorem success_needs_an_answered_call env event attempt :
  attempt ∈ dispatch env event ->
  (length attempt.2 <= 1)%nat /\
  (Success attempt.1 = true ->
   exists call, attempt.2 = [call] /\ respond env call = None) /\
  (forall call msg,
     call ∈ attempt.2 -> respond env call = Some msg ->
     Success attempt.1 = false /\ Error attempt.1 = msg) /\
  (attempt.2 = [] -> Success attempt.1 = false /\ Error attempt.1 <> "").
Proof.
  intros Hin. apply dispatch_sound in Hin.
  destruct Hin as [(Hnone & Hs & He) | (call & Hcall & Hres)].
  - rewrite Hnone, Hs. split; [simpl; lia |]. split; [discriminate |].
    split; [| done]. intros call msg Hc. by apply elem_of_nil in Hc.
  - rewrite Hcall. split; [simpl; lia |].
    destruct Hres as [(Hr & Hs & He) | (msg & Hr & Hs & He)].
    + split; [intros _; by exists call |]. split; [| discriminate].
      intros c m Hc Hm. apply list_elem_of_singleton in Hc as ->. congruence.
    + split; [rewrite Hs; discriminate |]. split; [| discriminate].
      intros c m Hc Hm. apply list_elem_of_singleton in Hc as ->.
      split; [done | congruence].
Qed.

Lemma success_needs_an_answered_call_witness :
  (deliverToRabbitMQ Scenario.broker_down Scenario.receipt)
    ∈ dispatch Scenario.broker_down Scenario.receipt /\
  Success (deliverToRabbitMQ Scenario.broker_down Scenario.receipt).1 = false /\
  Error (deliverToRabbitMQ Scenario.broker_down Scenario.receipt).1
    = "broker down".
Proof.
  assert (Hin : (deliverToRabbitMQ Scenario.broker_down Scenario.receipt)
                  ∈ dispatch Scenario.broker_down Scenario.receipt).
  { unfold dispatch. rewrite !elem_of_app. right. right.
    by apply list_elem_of_singleton. }
  split; [exact Hin |].
  destruct (success_needs_an_answered_call _ _ _ Hin) as (_ & _ & Herr & _).
  apply (Herr (PublishSync "{}" "Message" "u1" "tok") "broker down").
  - by apply list_elem_of_singleton.
  - reflexivity.
Defined.

Lemma concat_calls_length env (attempts : list (DeliveryResult * list NetCall)) :
  (forall attempt, attempt ∈ attempts -> sound_attempt env attempt) ->
  (length (concat attempts.*2) <= length attempts)%nat.
Proof.
  induction attempts as [|a attempts IH]; intros Hs; [done |].
  assert (Hone : (length a.2 <= 1)%nat).
  { destruct (Hs a) as [(H0 & _) | (call & H0 & _)]; [left | |];
      rewrite H0; simpl; lia. }
  assert (Hrest : (length (concat attempts.*2) <= length attempts)%nat).
  { apply IH. intros a' Hin. apply Hs. by right. }
  rewrite fmap_cons. cbn [concat]. rewrite length_app. cbn [length]. lia.
Qed.

Lemma dispatch_length env event : (length (dispatch env event) <= 3)%nat.
Proof.
  unfold dispatch. rewrite !length_app.
  destruct (decide _), (decide _), (rabbitEnabled env); simpl; lia.
Qed.

(** X12: Only fan-out cycles call out: a record's construction, a submission,
    a sweep and [ForceRetry] leave the log of outgoing calls as it is, and
    a cycle appends at most one call per dispatched channel, so at most
    three. *)
Theorem only_cycles_call_out w op w' :
  step w op w' ->
  match op with
  | OpProcessDelivery env i =>
      exists ref event calls,
        goroutines w !! i = Some ref /\
        heap w !! ref = Some event /\
        network w' = network w ++ calls /\
        (length calls <= length (dispatched env event))%nat /\
        (length (dispatched env event) <= 3)%nat
  | _ => network w' = network w
  end.
Proof.
  intros Hstep. apply step_cases in Hstep
    as [(e & -> & ->) | [(r & now & idnow & -> & Hrun) |
        [(env & i & r & event & u & -> & Hi & Hev & -> & ->) |
         [(c & rg & sel & -> & _ & _ & ->) |
          [(eid & c & rg & resp & -> & _ & Hrun) |
           (st6 & r6 & e6 & -> & _ & _ & ->)]]]]]; [| | | | | done].
  - done.
  - by apply DeliverEvent_world in Hrun as (event & _ & ->).
  - exists r, event, (concat (dispatch env event).*2).
    split; [done |]. split; [done |]. split.
    + cbn [network].
      destruct (update_status_cases
                  (forallb Success (dispatch env event).*1) r event
                  (mkWorld (heap w) (dm w) (goroutines w)
                     (network w ++ concat (dispatch env event).*2)))
        as (_ & Hn & _). exact Hn.
    + unfold dispatched. rewrite length_fmap. split.
      * apply (concat_calls_length env). intros a. apply dispatch_sound.
      * apply dispatch_length.
  - done.
  - apply ForceRetry_cases in Hrun
      as [(sel & _ & ->) | [-> | (r & event & _ & _ & ->)]]; done.
Qed.

Lemma only_cycles_call_out_witness :
  step (Scenario.tracked 2) (OpProcessDelivery Scenario.broker_down 0)
    Scenario.exhausted /\
  exists calls,
    network Scenario.exhausted = network (Scenario.tracked 2) ++ calls /\
    (length calls <= 3)%nat.
Proof.
  assert (Hstep : step (Scenario.tracked 2)
                    (OpProcessDelivery Scenario.broker_down 0)
                    Scenario.exhausted).
  { split; [exact I | vm_compute; reflexivity]. }
  split; [exact Hstep |].
  destruct (only_cycles_call_out _ _ _ Hstep)
    as (ref & event & calls & _ & _ & Hnet & Hlen & Hmax).
  exists calls. split; [exact Hnet | lia].
Defined.

(** ** The counts of the listing *)

Lemma filter_all {A} (P : A -> Prop) `{!forall x, Decision (P x)} (l : list A) :
  (forall x, x ∈ l -> P x) -> filter P l = l.
Proof.
  induction l as [|x l IH]; intros Hall; [done |].
  rewrite filter_cons_True by (apply Hall; left).
  f_equal. apply IH. intros y Hy. apply Hall. by right.
Qed.

Lemma range_length w range :
  range ≡ₚ map_to_list (pendingEvents (dm w)) ->
  length range = size (pendingEvents (dm w)).
Proof. intros ->. apply length_map_to_list. Qed.

Lemma DeliveryMetrics_unfold userID limitStr range w :
  allocated w ->
  range ≡ₚ map_to_list (pendingEvents (dm w)) ->
  DeliveryMetrics userID limitStr range (Some w) =
  Some (mkResponse StatusOK
          (BodyMetrics
             {| total_pending := GetPendingEventsCount w;
                filtered_count :=
                  Z.of_nat (length (filter (fun entry =>
                                              matches w userID entry = true) range));
                shown_count :=
                  Z.of_nat (length (take (Z.to_nat (parse_limit limitStr))
                                      (filter (fun entry =>
                                                 matches w userID entry = true)
                                         range).*2));
                events := take (Z.to_nat (parse_limit limitStr))
                            (filter (fun entry => matches w userID entry = true)
                               range).*2 |})).
Proof.
  intros Halloc Hperm. unfold DeliveryMetrics.
  rewrite (metrics_loop_spec _ _ _ _ _ _ (range_allocated _ _ Halloc Hperm)).
  cbn zeta. simpl. rewrite Z.sub_0_r. reflexivity.
Qed.

Lemma DeliveryMetrics_reads_same userID limitStr range w :
  DeliveryMetrics userID limitStr range (Some w) =
  DeliveryMetrics_reads userID limitStr range w w.
Proof. reflexivity. Qed.

Lemma DeliveryMetrics_reads_unfold userID limitStr range w later :
  allocated w ->
  range ≡ₚ map_to_list (pendingEvents (dm w)) ->
  DeliveryMetrics_reads userID limitStr range w later =
  Some (mkResponse StatusOK
          (BodyMetrics
             {| total_pending := GetPendingEventsCount later;
                filtered_count :=
                  Z.of_nat (length (filter (fun entry =>
                                              matches w userID entry = true) range));
                shown_count :=
                  Z.of_nat (length (take (Z.to_nat (parse_limit limitStr))
                                      (filter (fun entry =>
                                                 matches w userID entry = true)
                                         range).*2));
                events := take (Z.to_nat (parse_limit limitStr))
                            (filter (fun entry => matches w userID entry = true)
                               range).*2 |})).
Proof.
  intros Halloc Hperm. unfold DeliveryMetrics_reads.
  rewrite (metrics_loop_spec _ _ _ _ _ _ (range_allocated _ _ Halloc Hperm)).
  cbn zeta. simpl. rewrite Z.sub_0_r. reflexivity.
Qed.

(** X13: The counts of the listing, with the loop run under the read lock
    on the state [w] and [len(pendingEvents)] read after the unlock on the
    state [later]: the number of records shown is the smaller of the limit
    and the number of matching records, which is at most the number of
    records pending during the loop; the total reported is the number
    pending at the later read; without a tenant filter every record
    pending during the loop matches; when the matching records fit the
    limit all of them are shown; the tracked records being distinct, none
    is listed twice; and when the map has not changed between the two
    reads the matching count is at most the total reported. *)
Theorem DeliveryMetrics_counts userID limitStr range w later :
  allocated w ->
  range ≡ₚ map_to_list (pendingEvents (dm w)) ->
  exists m,
    DeliveryMetrics_reads userID limitStr range w later =
      Some (mkResponse StatusOK (BodyMetrics m)) /\
    shown_count m = Z.min (parse_limit limitStr) (filtered_count m) /\
    shown_count m = Z.of_nat (length (events m)) /\
    0 <= filtered_count m <= GetPendingEventsCount w /\
    total_pending m = GetPendingEventsCount later /\
    (userID = "" -> filtered_count m = GetPendingEventsCount w) /\
    (filtered_count m <= parse_limit limitStr ->
     forall id ref event,
       pendingEvents (dm w) !! id = Some ref ->
       heap w !! ref = Some event ->
       userID = "" \/ UserID event = userID ->
       ref ∈ events m) /\
    (tracked_pending w -> NoDup (events m)) /\
    (pendingEvents (dm later) = pendingEvents (dm w) ->
     filtered_count m <= total_pending m /\
     (userID = "" -> filtered_count m = total_pending m)).
Proof.
  intros Halloc Hperm.
  rewrite (DeliveryMetrics_reads_unfold _ _ _ _ later Halloc Hperm).
  eexists. split; [reflexivity |]. cbn [shown_count filtered_count
    total_pending events].
  set (matching := filter (fun entry => matches w userID entry = true) range).
  pose proof (parse_limit_pos limitStr) as Hpos.
  assert (Hle : (length matching <= length range)%nat) by apply length_filter.
  pose proof (range_length _ _ Hperm) as Hsize.
  assert (Hall : userID = "" ->
                 Z.of_nat (length matching) = GetPendingEventsCount w).
  { intros ->. unfold GetPendingEventsCount. rewrite <- Hsize.
    subst matching. rewrite filter_all; [done |].
    intros [id ref] Hin. unfold matches. simpl.
    destruct (range_allocated _ _ Halloc Hperm _ Hin) as [event Hev].
    simpl in Hev. by rewrite Hev. }
  split; [| split; [| split; [| split; [| split; [| split; [| split]]]]]].
  - rewrite length_take, length_fmap. lia.
  - reflexivity.
  - unfold GetPendingEventsCount. lia.
  - reflexivity.
  - exact Hall.
  - intros Hfit id ref event Hp Hev Hmatch.
    rewrite take_ge by (rewrite length_fmap; lia).
    apply list_elem_of_fmap. exists (id, ref). split; [done |].
    subst matching. apply list_elem_of_filter. split.
    + unfold matches. simpl. rewrite Hev. apply orb_true_iff.
      destruct Hmatch as [Hm | Hm]; [left | right]; by apply bool_decide_eq_true.
    + rewrite Hperm. by apply elem_of_map_to_list.
  - intros Hinv.
    apply (sublist_NoDup (take (Z.to_nat (parse_limit limitStr)) matching.*2)
             matching.*2); [| apply sublist_take].
    apply NoDup_fmap_2_strong.
    + intros [id1 ref1] [id2 ref2] Hin1 Hin2 Heq. simpl in Heq. subst ref2.
      apply list_elem_of_filter in Hin1 as [_ Hin1].
      apply list_elem_of_filter in Hin2 as [_ Hin2].
      rewrite Hperm in Hin1, Hin2.
      apply elem_of_map_to_list in Hin1, Hin2.
      destruct (Hinv _ _ Hin1) as (e1 & He1 & Hid1 & _).
      destruct (Hinv _ _ Hin2) as (e2 & He2 & Hid2 & _).
      f_equal. congruence.
    + apply NoDup_filter. rewrite Hperm. apply NoDup_map_to_list.
  - intros Hsame. unfold GetPendingEventsCount in *. rewrite Hsame. split.
    + lia.
    + exact Hall.
Qed.

Lemma DeliveryMetrics_counts_witness :
  allocated Scenario.listing /\
  Scenario.range3 ≡ₚ map_to_list (pendingEvents (dm Scenario.listing)) /\
  (exists m,
     DeliveryMetrics_reads "u1" "1" Scenario.range3
       Scenario.listing Scenario.listing =
       Some (mkResponse StatusOK (BodyMetrics m)) /\
     shown_count m = Z.min 1 (filtered_count m) /\
     filtered_count m <= total_pending m) /\
  (exists later m,
     processDelivery Scenario.all_up 3 Scenario.listing = Some later /\
     DeliveryMetrics_reads "" "" Scenario.range3 Scenario.listing later =
       Some (mkResponse StatusOK (BodyMetrics m)) /\
     filtered_count m = 3 /\
     total_pending m = 2).
Proof.
  assert (Halloc : allocated Scenario.listing).
  { intros id ref Hp. apply elem_of_map_to_list in Hp.
    change (map_to_list (pendingEvents (dm Scenario.listing)))
      with [("c", 3%positive); ("a", 1%positive); ("b", 2%positive)] in Hp.
    repeat (apply elem_of_cons in Hp as [Hp | Hp];
            [injection Hp as -> ->; by eexists |]).
    by apply elem_of_nil in Hp. }
  assert (Hperm : Scenario.range3
                    ≡ₚ map_to_list (pendingEvents (dm Scenario.listing))).
  { change (map_to_list (pendingEvents (dm Scenario.listing)))
      with [("c", 3%positive); ("a", 1%positive); ("b", 2%positive)].
    apply perm_skip, perm_swap. }
  split; [exact Halloc |]. split; [exact Hperm |]. split.
  - destruct (DeliveryMetrics_counts "u1" "1" Scenario.range3 Scenario.listing
                Scenario.listing Halloc Hperm)
      as (m & Hrun & Hshown & _ & _ & _ & _ & _ & _ & Hsame).
    exists m. split; [exact Hrun |]. split; [exact Hshown |].
    by apply Hsame.
  - destruct (processDelivery Scenario.all_up 3 Scenario.listing)
      as [later|] eqn:Hcycle; [| by vm_compute in Hcycle].
    destruct (DeliveryMetrics_counts "" "" Scenario.range3 Scenario.listing
                later Halloc Hperm)
      as (m & Hrun & _ & _ & _ & Htotal & Hall & _).
    exists later, m. split; [reflexivity |]. split; [exact Hrun |].
    split; [rewrite (Hall eq_refl); reflexivity |].
    rewrite Htotal. vm_compute in Hcycle. injection Hcycle as <-.
    reflexivity.
Defined.

(** ** What the manager never writes *)

Lemma same_content_refl e : same_content e e.
Proof. by repeat split. Qed.

Lemma same_content_trans e1 e2 e3 :
  same_content e1 e2 -> same_content e2 e3 -> same_content e1 e3.
Proof.
  intros (H1 & H2 & H3 & H4 & H5) (I1 & I2 & I3 & I4 & I5).
  repeat split; congruence.
Qed.

Lemma step_content w op w' ref event :
  step w op w' ->
  heap w !! ref = Some event ->
  exists event',
    heap w' !! ref = Some event' /\
    same_content event event' /\
    (ID event <> "" -> ID event' = ID event).
Proof.
  intros Hstep Hev. apply step_cases in Hstep
    as [(e & _ & ->) | [(r & now & idnow & _ & Hrun) |
        [(env & i & r & er & u & _ & _ & Her & -> & ->) |
         [(c & rg & sel & _ & _ & _ & ->) |
          [(eid & c & rg & resp & _ & _ & Hrun) |
           (st6 & r6 & e6 & _ & He6 & _ & ->)]]]]].
  - exists event. simpl. split; [| split; [apply same_content_refl | done]].
    rewrite lookup_insert_ne; [done |].
    intros <-. apply (is_fresh (dom (heap w))). apply elem_of_dom. by exists event.
  - apply DeliverEvent_world in Hrun as (er & Her & ->). simpl.
    destruct (decide (r = ref)) as [-> | Hne].
    + rewrite Her in Hev. injection Hev as ->.
      rewrite lookup_insert_eq. eexists. split; [reflexivity |].
      split; [by repeat split |]. simpl. intros Hid. unfold stored_id.
      by destruct (decide _).
    + rewrite lookup_insert_ne by done. exists event.
      split; [done |]. split; [apply same_content_refl | done].
  - cbn [heap].
    destruct (update_status_cases
                (forallb Success (dispatch env er).*1) r er
                (mkWorld (heap w) (dm w) (goroutines w)
                   (network w ++ concat (dispatch env er).*2)))
      as (_ & _ & _ & [[Hh _] | [[Hh _] | [Hh _]]]); rewrite Hh; simpl;
      (destruct (decide (r = ref)) as [-> | Hne];
       [ rewrite Her in Hev; injection Hev as ->; rewrite lookup_insert_eq;
         eexists; split; [reflexivity |]; split; [by repeat split | done]
       | rewrite lookup_insert_ne by done; exists event;
         split; [done |]; split; [apply same_content_refl | done] ]).
  - exists event. split; [done |]. split; [apply same_content_refl | done].
  - apply ForceRetry_cases in Hrun
      as [(sel & _ & ->) | [-> | (r & er & _ & Her & ->)]].
    + exists event. split; [done |]. split; [apply same_content_refl | done].
    + exists event. split; [done |]. split; [apply same_content_refl | done].
    + simpl. destruct (decide (r = ref)) as [-> | Hne].
      * rewrite Her in Hev. injection Hev as ->. rewrite lookup_insert_eq.
        eexists. split; [reflexivity |]. split; [by repeat split | done].
      * rewrite lookup_insert_ne by done. exists event.
        split; [done |]. split; [apply same_content_refl | done].
  - destruct st6; simpl;
      [| | exists event; split; [done |];
           split; [apply same_content_refl | done]];
      (destruct (decide (r6 = ref)) as [-> | Hne];
       [ rewrite He6 in Hev; injection Hev as ->; rewrite lookup_insert_eq;
         eexists; split; [reflexivity |]; split; [by repeat split | done]
       | rewrite lookup_insert_ne by done; exists event;
         split; [done |]; split; [apply same_content_refl | done] ]).
Qed.

(** X14: A record is never deallocated and its content is never rewritten:
    over any run of the manager the tenant, token, event type, body and
    file path of a record stay as the producer built them, and so does its
    id once it has one. *)
Theorem record_content_is_immutable ok w ops w' ref event :
  run ok w ops w' ->
  heap w !! ref = Some event ->
  exists event',
    heap w' !! ref = Some event' /\
    same_content event event' /\
    (ID event <> "" -> ID event' = ID event).
Proof.
  intros Hrun. revert event.
  induction Hrun as [w | w op w1 ops w2 _ Hstep _ IH]; intros event Hev.
  - exists event. split; [done |]. split; [apply same_content_refl | done].
  - destruct (step_content _ _ _ _ _ Hstep Hev) as (e1 & He1 & Hs1 & Hid1).
    destruct (IH _ He1) as (e2 & He2 & Hs2 & Hid2).
    exists e2. split; [done |].
    split; [by apply (same_content_trans _ e1) |].
    intros Hne. rewrite Hid2; [by apply Hid1 |]. rewrite Hid1; done.
Qed.

Lemma record_content_is_immutable_witness :
  run (fun _ _ => True) Scenario.built
    [OpDeliverEvent 1 0 5; OpProcessDelivery Scenario.broker_down 0]
    (mkWorld {[ 1%positive := set_AttemptCount 1 Scenario.receipt ]}
       (dm (Scenario.tracked 0)) []
       [PostForm "http://hook.example"
          [("jsonData", "{}"); ("token", "tok"); ("instanceName", "")];
        PublishSync "{}" "Message" "u1" "tok"]) /\
  heap Scenario.built !! 1%positive = Some Scenario.receipt /\
  same_content Scenario.receipt (set_AttemptCount 1 Scenario.receipt).
Proof.
  assert (Hrun : run (fun _ _ => True) Scenario.built
            [OpDeliverEvent 1 0 5; OpProcessDelivery Scenario.broker_down 0]
            (mkWorld {[ 1%positive := set_AttemptCount 1 Scenario.receipt ]}
               (dm (Scenario.tracked 0)) []
               [PostForm "http://hook.example"
                  [("jsonData", "{}"); ("token", "tok"); ("instanceName", "")];
                PublishSync "{}" "Message" "u1" "tok"])).
  { apply (run_cons _ _ _ (Scenario.tracked 0));
      [exact I | split; [exact I | vm_compute; reflexivity] |].
    eapply run_cons; [exact I | split; [exact I | vm_compute; reflexivity] |].
    apply run_nil. }
  assert (Hev : heap Scenario.built !! 1%positive = Some Scenario.receipt)
    by reflexivity.
  split; [exact Hrun |]. split; [exact Hev |].
  destruct (record_content_is_immutable _ _ _ _ _ _ Hrun Hev)
    as (event' & Hev' & Hsame & _).
  injection Hev' as <-. exact Hsame.
Defined.

(** ** No nil pointer is dereferenced *)

Lemma select_retries_allocated m h clockAt range acc sel :
  select_retries m h clockAt range acc = Some sel ->
  Forall (fun ref => is_Some (h !! ref)) acc ->
  Forall (fun ref => is_Some (h !! ref)) sel.
Proof.
  revert acc. induction range as [|[id ref] range IH]; intros acc Hsel Hacc.
  - simpl in Hsel. by injection Hsel as <-.
  - cbn [select_retries] in Hsel.
    destruct (h !! ref) as [event|] eqn:Hev; [| done].
    cbn [mbind option_bind] in Hsel.
    destruct (retry_condition m (clockAt id) event).
    + apply (IH _ Hsel). apply Forall_app. split; [done |].
      apply Forall_singleton. by rewrite Hev.
    + by apply (IH _ Hsel).
Qed.

Lemma step_goroutines w op w' ref :
  step w op w' ->
  ref ∈ goroutines w' ->
  ref ∈ goroutines w \/ is_Some (heap w !! ref).
Proof.
  intros Hstep Hin. apply step_cases in Hstep
    as [(e & _ & ->) | [(r & now & idnow & _ & Hrun) |
        [(env & i & r & er & u & _ & _ & Her & -> & ->) |
         [(c & rg & sel & _ & _ & Hsel & ->) |
          [(eid & c & rg & resp & _ & _ & Hrun) |
           (st6 & r6 & e6 & _ & He6 & _ & ->)]]]]].
  - by left.
  - apply DeliverEvent_world in Hrun as (er & Her & ->). simpl in Hin.
    apply elem_of_app in Hin as [Hin | Hin]; [by left |].
    apply list_elem_of_singleton in Hin as ->. right. by exists er.
  - left. cbn [goroutines] in Hin.
    destruct (update_status_cases
                (forallb Success (dispatch env er).*1) r er
                (mkWorld (heap w) (dm w) (goroutines w)
                   (network w ++ concat (dispatch env er).*2)))
      as (Hg & _). rewrite Hg in Hin. simpl in Hin.
    by apply list_elem_of_delete_inv in Hin.
  - simpl in Hin. apply elem_of_app in Hin as [Hin | Hin]; [by left |].
    right.
    pose proof (select_retries_allocated _ _ _ _ _ _ Hsel (Forall_nil_2 _))
      as Hall.
    rewrite Forall_forall in Hall. by apply Hall.
  - apply ForceRetry_cases in Hrun
      as [(sel & Hsel & ->) | [-> | (r & er & _ & Her & ->)]].
    + simpl in Hin. apply elem_of_app in Hin as [Hin | Hin]; [by left |].
      right.
      pose proof (select_retries_allocated _ _ _ _ _ _ Hsel (Forall_nil_2 _))
        as Hall.
      rewrite Forall_forall in Hall. by apply Hall.
    + by left.
    + simpl in Hin. apply elem_of_app in Hin as [Hin | Hin]; [by left |].
      apply list_elem_of_singleton in Hin as ->. right. by exists er.
  - destruct st6; simpl in Hin; [by left | by left |].
    apply elem_of_app in Hin as [Hin | Hin]; [by left |].
    apply list_elem_of_singleton in Hin as ->. right. by exists e6.
Qed.

Lemma step_running_allocated w op w' :
  step w op w' -> running_allocated w -> running_allocated w'.
Proof.
  intros Hstep Hinv. apply Forall_forall. intros ref Hin.
  assert (Hold : is_Some (heap w !! ref)).
  { destruct (step_goroutines _ _ _ _ Hstep Hin) as [Hg | Hh]; [| done].
    unfold running_allocated in Hinv. rewrite Forall_forall in Hinv.
    by apply Hinv. }
  destruct Hold as [event Hev].
  destruct (step_content _ _ _ _ _ Hstep Hev) as (event' & Hev' & _).
  by exists event'.
Qed.

Lemma run_running_allocated ok w ops w' :
  run ok w ops w' -> running_allocated w -> running_allocated w'.
Proof.
  induction 1 as [w | w op w1 ops w2 _ Hstep _ IH]; [done |].
  intros Hinv. apply IH. by apply (step_running_allocated w op w1).
Qed.

(** X15: In every state the manager reaches, each spawned goroutine and each
    entry of the pending map holds the address of an allocated record, so
    none of the operations hits a nil pointer: every spawned cycle, every
    sweep, every [ForceRetry] and every listing runs to its end. *)
Theorem reachable_states_never_panic ok ops w :
  run ok initial ops w ->
  (forall env i,
     (i < length (goroutines w))%nat ->
     is_Some (exec (OpProcessDelivery env i) w)) /\
  (forall clockAt range,
     range ≡ₚ map_to_list (pendingEvents (dm w)) ->
     is_Some (exec (OpRetryTick clockAt range) w)) /\
  (forall eventID clockAt range,
     range ≡ₚ map_to_list (pendingEvents (dm w)) ->
     is_Some (exec (OpForceRetry eventID clockAt range) w)) /\
  (forall userID limitStr range,
     range ≡ₚ map_to_list (pendingEvents (dm w)) ->
     is_Some (DeliveryMetrics userID limitStr range (Some w))).
Proof.
  intros Hrun.
  assert (Hgo : running_allocated w).
  { apply (run_running_allocated _ _ _ _ Hrun). apply Forall_nil. exact I. }
  assert (Halloc : allocated w).
  { apply tracked_pending_allocated, (run_tracked_pending _ _ _ _ Hrun),
      tracked_pending_initial. }
  assert (Hsweep : forall clockAt range,
            range ≡ₚ map_to_list (pendingEvents (dm w)) ->
            is_Some (retryFailedEvents clockAt range w)).
  { intros clockAt range Hperm. unfold retryFailedEvents.
    rewrite (select_retries_spec _ _ _ _ _ (range_allocated _ _ Halloc Hperm)).
    by eexists. }
  split; [| split; [| split]].
  - intros env i Hi. cbn [exec].
    destruct (lookup_lt_is_Some_2 _ _ Hi) as [ref Href]. rewrite Href. simpl.
    unfold running_allocated in Hgo. rewrite Forall_forall in Hgo.
    destruct (Hgo ref) as [event Hev]; [by apply (list_elem_of_lookup_2 _ i) |].
    rewrite (processDelivery_unfold _ _ _ _ Hev). simpl. by eexists.
  - intros clockAt range Hperm. by apply Hsweep.
  - intros eventID clockAt range Hperm. cbn [exec].
    destruct (decide (eventID = "")) as [-> | Hid].
    + unfold ForceRetry. simpl.
      destruct (Hsweep clockAt range Hperm) as [w' Hw']. rewrite Hw'.
      simpl. by eexists.
    + destruct (pendingEvents (dm w) !! eventID) as [ref|] eqn:Hp.
      * destruct (Halloc _ _ Hp) as [event Hev].
        rewrite (ForceRetry_tracked _ _ _ _ _ _ Hid Hp Hev). simpl. by eexists.
      * rewrite (ForceRetry_untracked _ _ _ _ Hid Hp). simpl. by eexists.
  - intros userID limitStr range Hperm.
    rewrite (DeliveryMetrics_unfold _ _ _ _ Halloc Hperm). by eexists.
Qed.

Lemma reachable_states_never_panic_witness :
  run (fun _ _ => True) initial Cases.submit_one (Scenario.tracked 0) /\
  is_Some (exec (OpProcessDelivery Scenario.broker_down 0) (Scenario.tracked 0)) /\
  is_Some (exec (OpRetryTick (fun _ => 3 * second) Scenario.range1)
             (Scenario.tracked 0)).
Proof.
  split; [exact submit_one_run |].
  destruct (reachable_states_never_panic _ _ _ submit_one_run)
    as (Hcycle & Htick & _).
  split.
  - apply Hcycle. simpl. lia.
  - apply Htick. vm_compute. reflexivity.
Defined.

(** ** assertColorFromInt *)

(** X16: For every value of the 64-bit [int], [assertColorFromInt] returns the
    value reduced modulo 2^32, the two branches of the function agreeing on
    that: a colour in [1, 2^32) is returned unchanged, 0 gives 0, and a
    negative number above -2^32 gives its unsigned 32-bit reading. *)
Theorem assertColorFromInt_mod color :
  Int64.in_range color ->
  assertColorFromInt color = color mod 2 ^ 32 /\
  0 <= assertColorFromInt color < 2 ^ 32 /\
  (0 <= color < 2 ^ 32 -> assertColorFromInt color = color) /\
  (- 2 ^ 32 < color < 0 -> assertColorFromInt color = color + 2 ^ 32).
Proof.
  intros Hr.
  assert (Hmod : assertColorFromInt color = color mod 2 ^ 32).
  { unfold assertColorFromInt, uint32.
    destruct (decide (0 < color)) as [Hpos | Hneg]; [reflexivity |].
    unfold Int64.in_range, Int64.min_int, Int64.max_int in Hr.
    rewrite (wrap_in_range (4294967295 + color))
      by (unfold Int64.in_range, Int64.min_int, Int64.max_int; lia).
    rewrite wrap_in_range
      by (unfold Int64.in_range, Int64.min_int, Int64.max_int; lia).
    replace (4294967295 + color + 1) with (color + 1 * 2 ^ 32) by lia.
    apply Z_mod_plus_full. }
  rewrite Hmod. split; [reflexivity |]. split; [apply Z.mod_pos_bound; lia |].
  split.
  - intros Hsmall. apply Z.mod_small. lia.
  - intros Hneg. replace color with ((color + 2 ^ 32) + (-1) * 2 ^ 32) at 1 by lia.
    rewrite Z_mod_plus_full. apply Z.mod_small. lia.
Qed.

Lemma assertColorFromInt_mod_witness :
  Int64.in_range (-1) /\
  assertColorFromInt (-1) = 4294967295 /\
  assertColorFromInt 4294967301 = 5.
Proof.
  assert (Hr : Int64.in_range (-1)) by (vm_compute; split; discriminate).
  split; [exact Hr |].
  destruct (assertColorFromInt_mod (-1) Hr) as (_ & _ & _ & Hneg).
  split; [rewrite Hneg; [reflexivity | lia] |].
  destruct (assertColorFromInt_mod 4294967301) as (Hmod & _).
  - vm_compute. split; discriminate.
  - rewrite Hmod. reflexivity.
Defined.

(** ** ForceRetry without an id *)

Lemma World_eta w :
  mkWorld (heap w) (dm w) (goroutines w ++ []) (network w) = w.
Proof. destruct w. simpl. by rewrite app_nil_r. Qed.

(** X17: [ForceRetry] without an id is one sweep: it spawns exactly the cycles
    a tick of the retry loop would spawn on the same state, and it answers
    200 whatever was selected; when no tracked record is eligible (an empty
    pending map included) it answers 200 and changes nothing. *)
Theorem ForceRetry_all_is_a_sweep clockAt range w :
  allocated w ->
  range ≡ₚ map_to_list (pendingEvents (dm w)) ->
  exists w',
    retryFailedEvents clockAt range w = Some w' /\
    ForceRetry "" clockAt range (Some w) =
      Some (mkResponse StatusOK (BodyText "Retry triggered for all pending events"),
            Some w') /\
    ((forall entry, entry ∈ range -> eligible w clockAt entry = false) ->
     w' = w).
Proof.
  intros Halloc Hperm. unfold ForceRetry, retryFailedEvents.
  rewrite (select_retries_spec _ _ _ _ _ (range_allocated _ _ Halloc Hperm)).
  simpl. eexists. split; [reflexivity |]. split; [reflexivity |].
  intros Hnone.
  assert (Hempty : filter (fun entry =>
                      match heap w !! entry.2 with
                      | Some event => retry_condition (dm w) (clockAt entry.1) event
                      | None => false
                      end = true) range = []).
  { induction range as [|entry range IH] in Hnone |- *; [done |].
    rewrite filter_cons_False.
    - apply IH. intros e He. apply Hnone. by right.
    - pose proof (Hnone entry ltac:(left)) as He. unfold eligible in He.
      congruence. }
  rewrite Hempty. simpl. apply World_eta.
Qed.

Lemma ForceRetry_all_is_a_sweep_witness :
  allocated (Scenario.tracked 1) /\
  Scenario.range1 ≡ₚ map_to_list (pendingEvents (dm (Scenario.tracked 1))) /\
  ForceRetry "" (fun _ => 1 * second) Scenario.range1 (Some (Scenario.tracked 1)) =
    Some (mkResponse StatusOK (BodyText "Retry triggered for all pending events"),
          Some (Scenario.tracked 1)).
Proof.
  assert (Halloc : allocated (Scenario.tracked 1)).
  { intros id ref Hp. simpl in Hp.
    apply lookup_singleton_Some in Hp as [<- <-]. by eexists. }
  assert (Hperm : Scenario.range1
                    ≡ₚ map_to_list (pendingEvents (dm (Scenario.tracked 1))))
    by (vm_compute; reflexivity).
  split; [exact Halloc |]. split; [exact Hperm |].
  destruct (ForceRetry_all_is_a_sweep (fun _ => 1 * second) Scenario.range1
              (Scenario.tracked 1) Halloc Hperm) as (w' & _ & Hforce & Hsame).
  rewrite Hforce, Hsame; [reflexivity |].
  intros entry Hin. apply list_elem_of_singleton in Hin as ->.
  vm_compute. reflexivity.
Defined.

(** ** How cycles compose *)

Lemma update_status_outcome ok ref event w :
  update_status ok ref event w =
  {| heap := <[ref := outcome_record ok (maxRetries (dm w)) event]> (heap w);
     dm := {| pendingEvents :=
                if outcome_ended ok (maxRetries (dm w)) event
                then delete (ID event) (pendingEvents (dm w))
                else pendingEvents (dm w);
              maxRetries := maxRetries (dm w);
              retryBackoff := retryBackoff (dm w);
              timeout := timeout (dm w) |};
     goroutines := goroutines w;
     network := network w |}.
Proof.
  unfold update_status, outcome_record, outcome_ended.
  destruct ok; simpl; [reflexivity |].
  destruct (decide (maxRetries (dm w) <= Int64.wrap (AttemptCount event + 1)))
    as [Hmax | Hmax].
  - by rewrite bool_decide_eq_true_2.
  - rewrite bool_decide_eq_false_2 by done. by destruct (dm w).
Qed.

(** X18: The cycles of two different records can reach their critical sections
    in either order: both orders run, and they end in the same records, the
    same pending map and the same goroutine pool; only the order of the
    logged calls differs. *)
Theorem cycles_of_distinct_records_commute env1 env2 r1 r2 w e1 e2 :
  r1 <> r2 ->
  heap w !! r1 = Some e1 ->
  heap w !! r2 = Some e2 ->
  exists wa wb,
    processDelivery env1 r1 w ≫= processDelivery env2 r2 = Some wa /\
    processDelivery env2 r2 w ≫= processDelivery env1 r1 = Some wb /\
    heap wa = heap wb /\
    dm wa = dm wb /\
    goroutines wa = goroutines wb /\
    network wa ≡ₚ network wb.
Proof.
  intros Hne H1 H2.
  rewrite (processDelivery_unfold env1 r1 w e1 H1),
    (processDelivery_unfold env2 r2 w e2 H2).
  cbn [mbind option_bind]. rewrite !update_status_outcome. cbn [heap dm
    goroutines network maxRetries pendingEvents retryBackoff timeout].
  rewrite (processDelivery_unfold env2 r2 _ e2)
    by (cbn [heap]; by rewrite lookup_insert_ne).
  rewrite (processDelivery_unfold env1 r1 _ e1)
    by (cbn [heap]; by rewrite lookup_insert_ne).
  rewrite !update_status_outcome. cbn [heap dm
    goroutines network maxRetries pendingEvents retryBackoff timeout].
  eexists _, _. split; [reflexivity |]. split; [reflexivity |].
  cbn [heap dm goroutines network].
  split; [by apply insert_insert_ne |]. split.
  - f_equal.
    destruct (outcome_ended _ _ e1), (outcome_ended _ _ e2);
      try reflexivity. apply delete_delete.
  - split; [reflexivity |].
    rewrite <- !app_assoc. apply Permutation_app_head, Permutation_app_comm.
Qed.

Lemma cycles_of_distinct_records_commute_witness :
  heap Cases.resubmitted !! 1%positive = Some Scenario.receipt /\
  heap Cases.resubmitted !! 2%positive
    = Some (set_CreatedAt 50 Scenario.receipt) /\
  exists wa wb,
    processDelivery Scenario.all_up 1 Cases.resubmitted
      ≫= processDelivery Scenario.broker_down 2 = Some wa /\
    processDelivery Scenario.broker_down 2 Cases.resubmitted
      ≫= processDelivery Scenario.all_up 1 = Some wb /\
    heap wa = heap wb /\ dm wa = dm wb.
Proof.
  split; [reflexivity |]. split; [reflexivity |].
  destruct (cycles_of_distinct_records_commute Scenario.all_up
              Scenario.broker_down 1 2 Cases.resubmitted Scenario.receipt
              (set_CreatedAt 50 Scenario.receipt))
    as (wa & wb & Ha & Hb & Hh & Hd & _);
    [discriminate | reflexivity | reflexivity |].
  exists wa, wb. split; [exact Ha |]. split; [exact Hb |].
  split; [exact Hh | exact Hd].
Defined.

(** X19: A submission under a new id followed by a cycle in which every
    dispatched adapter succeeds leaves the pending map exactly as it was
    before the submission, with the record marked Delivered. *)
Theorem submit_then_delivered_restores_map env ref now idnow w event :
  heap w !! ref = Some event ->
  pendingEvents (dm w) !! stored_id event idnow = None ->
  (forall r, r ∈ (dispatch env event).*1 -> Success r = true) ->
  exists w1 w2 event2,
    DeliverEvent ref now idnow w = Some w1 /\
    GetPendingEventsCount w1 = GetPendingEventsCount w + 1 /\
    processDelivery env ref w1 = Some w2 /\
    heap w2 !! ref = Some event2 /\
    Status event2 = DeliveryStatusDelivered /\
    CreatedAt event2 = now /\
    pendingEvents (dm w2) = pendingEvents (dm w) /\
    GetPendingEventsCount w2 = GetPendingEventsCount w.
Proof.
  intros Hev Hnew Hok.
  rewrite (DeliverEvent_unfold _ _ _ _ _ Hev). cbn zeta.
  set (event1 := set_ID (stored_id event idnow)
                   (set_Status DeliveryStatusPending (set_CreatedAt now event))).
  set (w1 := mkWorld _ _ _ _).
  assert (Hev1 : heap w1 !! ref = Some event1) by apply lookup_insert_eq.
  assert (Hok1 : forall r, r ∈ (dispatch env event1).*1 -> Success r = true).
  { rewrite <- (dispatch_same_content env event event1); [done |].
    by repeat split. }
  assert (Hmap : delete (ID event1) (pendingEvents (dm w1)) = pendingEvents (dm w)).
  { subst event1 w1. simpl. rewrite delete_insert_eq. by apply delete_id. }
  exists w1. eexists _, _. split; [reflexivity |]. split.
  { unfold GetPendingEventsCount. subst w1. simpl.
    rewrite map_size_insert_None by done. lia. }
  split; [by apply processDelivery_succeeding |].
  rewrite update_status_success. cbn [heap dm pendingEvents].
  rewrite lookup_insert_eq. split; [reflexivity |]. split; [reflexivity |].
  split; [reflexivity |]. split; [exact Hmap |].
  unfold GetPendingEventsCount. cbn [dm pendingEvents]. by rewrite Hmap.
Qed.

Lemma submit_then_delivered_restores_map_witness :
  heap Scenario.built !! 1%positive = Some Scenario.receipt /\
  pendingEvents (dm Scenario.built) !! "evt-1" = None /\
  exists w1 w2,
    DeliverEvent 1 0 5 Scenario.built = Some w1 /\
    processDelivery Scenario.all_up 1 w1 = Some w2 /\
    pendingEvents (dm w2) = ∅.
Proof.
  assert (Hev : heap Scenario.built !! 1%positive = Some Scenario.receipt)
    by reflexivity.
  split; [exact Hev |]. split; [reflexivity |].
  destruct (submit_then_delivered_restores_map Scenario.all_up 1 0 5
              Scenario.built Scenario.receipt Hev)
    as (w1 & w2 & event2 & Hsub & _ & Hrun & _ & _ & _ & Hmap & _).
  - reflexivity.
  - apply forallb_Success. vm_compute. reflexivity.
  - exists w1, w2. split; [exact Hsub |]. split; [exact Hrun | exact Hmap].
Defined.

(** ** The limit parameter in decimal *)

Lemma digit_of_pretty_N_char d :
  (d < 10)%N -> digit_of (pretty_N_char d) = Some (Z.of_N d).
Proof.
  intros Hd.
  assert (d = 0 \/ d = 1 \/ d = 2 \/ d = 3 \/ d = 4 \/ d = 5 \/ d = 6 \/
          d = 7 \/ d = 8 \/ d = 9)%N as Hcases by lia.
  repeat (destruct Hcases as [-> | Hcases]; [reflexivity |]).
  by subst d.
Qed.

Lemma parse_digits_pretty_N_go x :
  exists k, 0 <= k /\
    forall s acc,
      parse_digits (pretty_N_go x s) acc =
      parse_digits s (acc * 10 ^ k + Z.of_N x).
Proof.
  induction (N.lt_wf_0 x) as [x _ IH].
  destruct (decide (x = 0%N)) as [-> | Hpos].
  - exists 0. split; [lia |]. intros s acc. rewrite pretty_N_go_0.
    f_equal. simpl. lia.
  - destruct (IH (x `div` 10)%N) as (k & Hk & Hparse).
    { apply N.div_lt; lia. }
    exists (k + 1). split; [lia |]. intros s acc.
    rewrite pretty_N_go_step by lia. rewrite Hparse. cbn [parse_digits].
    rewrite digit_of_pretty_N_char by (apply N.mod_lt; lia).
    cbn [mbind option_bind]. f_equal.
    rewrite Z.pow_add_r by lia. rewrite N2Z.inj_mod, N2Z.inj_div.
    change (Z.of_N 10) with 10.
    pose proof (Z.div_mod (Z.of_N x) 10 ltac:(lia)). lia.
Qed.

Lemma parse_digits_pretty_positive p :
  parse_digits (pretty_N_go (Npos p) "") 0 = Some (Zpos p).
Proof.
  destruct (parse_digits_pretty_N_go (Npos p)) as (k & _ & Hparse).
  rewrite Hparse. simpl. reflexivity.
Qed.

Lemma parse_digits_head c rest acc v :
  parse_digits (String c rest) acc = Some v ->
  c <> "-"%char /\ c <> "+"%char.
Proof.
  cbn [parse_digits]. unfold digit_of.
  destruct (bool_decide (48 <= Z.of_N (N_of_ascii c) <= 57)) eqn:Hd;
    [| discriminate].
  apply bool_decide_eq_true in Hd. intros _.
  split; intros ->; vm_compute in Hd; destruct Hd as [H1 H2];
    by (apply H1 || apply H2).
Qed.

Lemma Atoi_unsigned s v :
  s <> "" ->
  parse_digits s 0 = Some v ->
  Atoi s = if bool_decide (Int64.min_int <= v <= Int64.max_int)
           then Some v else None.
Proof.
  intros Hne Hparse. destruct s as [|c rest]; [done |].
  destruct (parse_digits_head _ _ _ _ Hparse) as [Hminus Hplus].
  unfold Atoi.
  rewrite (bool_decide_eq_false_2 (c = "-"%char)) by done.
  rewrite (bool_decide_eq_false_2 (c = "+"%char)) by done.
  cbn [orb]. destruct (decide _); [done |]. by rewrite Hparse.
Qed.

Lemma pretty_N_go_positive_nonempty p : pretty_N_go (Npos p) "" <> "".
Proof.
  intros Hempty. pose proof (parse_digits_pretty_positive p) as Hparse.
  rewrite Hempty in Hparse. discriminate Hparse.
Qed.

Lemma pretty_positive_unfold p :
  pretty (Zpos p) = pretty_N_go (Npos p) "".
Proof. reflexivity. Qed.

Lemma pretty_negative_unfold p :
  pretty (Zneg p) = String "-" (pretty_N_go (Npos p) "").
Proof. reflexivity. Qed.

(** The model of [strconv.Atoi] reads back the decimal rendering of every
    integer that fits the 64-bit [int], and rejects the others. *)
Lemma Atoi_pretty n :
  Atoi (pretty n) =
  if bool_decide (Int64.min_int <= n <= Int64.max_int) then Some n else None.
Proof.
  destruct n as [|p|p].
  - reflexivity.
  - rewrite pretty_positive_unfold.
    apply Atoi_unsigned;
      [apply pretty_N_go_positive_nonempty | apply parse_digits_pretty_positive].
  - rewrite pretty_negative_unfold. unfold Atoi.
    rewrite (bool_decide_eq_true_2 ("-"%char = "-"%char)) by done. cbn [orb].
    destruct (decide _) as [Hempty | _];
      [by apply pretty_N_go_positive_nonempty in Hempty |].
    rewrite parse_digits_pretty_positive. reflexivity.
Qed.

(** X20: A limit written in decimal is the limit used when it is positive and
    fits the machine integer; zero, a negative number or a number too
    large falls back to 50. *)
Theorem limit_parameter_in_decimal n :
  parse_limit (pretty n) =
  if bool_decide (0 < n <= Int64.max_int) then n else 50.
Proof.
  unfold parse_limit. destruct (decide (pretty n = "")) as [Hempty | _].
  - exfalso. pose proof (Atoi_pretty n) as Hatoi. rewrite Hempty in Hatoi.
    destruct n as [|p|p]; [discriminate Hempty | |].
    + by apply pretty_N_go_positive_nonempty in Hempty.
    + discriminate Hempty.
  - rewrite Atoi_pretty.
    destruct (bool_decide (Int64.min_int <= n <= Int64.max_int)) eqn:Hr.
    + apply bool_decide_eq_true in Hr.
      destruct (decide (0 < n)) as [Hpos | Hneg].
      * rewrite bool_decide_eq_true_2; [done | lia].
      * rewrite bool_decide_eq_false_2; [done | lia].
    + apply bool_decide_eq_false in Hr.
      rewrite bool_decide_eq_false_2; [done |].
      unfold Int64.min_int in Hr. lia.
Qed.

(** ** Attachments *)

(** X21: The file attached to a record reaches the tenant's own webhook only:
    with a file path set, the user webhook adapter makes the file call for
    that path instead of the plain form post, while the calls and results
    of the global webhook and of the broker do not depend on the file path
    at all. *)
Theorem attachment_reaches_user_webhook_only env e1 e2 webhookURL :
  UserID e1 = UserID e2 ->
  Token e1 = Token e2 ->
  EventType e1 = EventType e2 ->
  JsonData e1 = JsonData e2 ->
  deliverToGlobalWebhook env e1 = deliverToGlobalWebhook env e2 /\
  deliverToRabbitMQ env e1 = deliverToRabbitMQ env e2 /\
  (GetHTTPClient env (UserID e1) = true ->
   (deliverToUserWebhook env e1 webhookURL).2 =
   [if decide (FilePath e1 = "")
    then PostForm webhookURL
           [("jsonData", JsonData e1); ("token", Token e1);
            ("instanceName", instanceName env (Token e1))]
    else PostFile webhookURL
           [("jsonData", JsonData e1); ("token", Token e1);
            ("instanceName", instanceName env (Token e1))]
           (UserID e1) (FilePath e1)]) /\
  (forall call url data userID file,
     call ∈ (deliverToGlobalWebhook env e1).2 ++ (deliverToRabbitMQ env e1).2 ->
     call <> PostFile url data userID file).
Proof.
  intros Hu Ht Hy Hj.
  split; [| split; [| split]].
  - unfold deliverToGlobalWebhook. by rewrite Hu, Ht, Hj.
  - unfold deliverToRabbitMQ. by rewrite Hu, Ht, Hj, Hy.
  - intros Hclient. unfold deliverToUserWebhook.
    destruct (clock env "webhook") as [start stop]. rewrite Hclient. simpl.
    by destruct (decide _).
  - intros call url data userID file Hin.
    unfold deliverToGlobalWebhook, deliverToRabbitMQ in Hin.
    destruct (clock env "global_webhook") as [s1 t1].
    destruct (clock env "rabbitmq") as [s2 t2].
    destruct (GetHTTPClient env (UserID e1)), (ctxDone env); simpl in Hin;
      repeat (apply elem_of_cons in Hin as [-> | Hin]; [discriminate |]);
      by apply elem_of_nil in Hin.
Qed.

Lemma attachment_reaches_user_webhook_only_witness :
  (deliverToUserWebhook Scenario.all_up Cases.with_file "http://hook.example").2 =
    [PostFile "http://hook.example"
       [("jsonData", "{}"); ("token", "tok"); ("instanceName", "")]
       "u1" "/tmp/a.ogg"] /\
  deliverToGlobalWebhook Scenario.all_up Cases.with_file =
    deliverToGlobalWebhook Scenario.all_up
      (mkDeliveryEvent "evt-1" "u1" "tok" "Message" "{}" "" 0 0
         DeliveryStatusPending "").
Proof.
  destruct (attachment_reaches_user_webhook_only Scenario.all_up
              Cases.with_file
              (mkDeliveryEvent "evt-1" "u1" "tok" "Message" "{}" "" 0 0
                 DeliveryStatusPending "")
              "http://hook.example" eq_refl eq_refl eq_refl eq_refl)
    as (Hglobal & _ & Huser & _).
  split; [| exact Hglobal].
  rewrite Huser; reflexivity.
Defined.

(** ** A retry forced while the record fails *)

(** X22: The lookup of [ForceRetry] and its three statements are not one
    critical section.  When the handler has found a tracked record and the
    failing cycle that exhausts the record's retries completes before the
    statements run, the cycle marks the record Failed and removes its id,
    and the statements then set the record back to Pending with count 0
    and spawn a cycle for it, while its id stays out of the pending map. *)
Theorem ForceRetry_resets_record_failed_since_lookup
    env i ref eventID clockAt range event w :
  tracked_pending w ->
  pendingEvents (dm w) !! eventID = Some ref ->
  heap w !! ref = Some event ->
  goroutines w !! i = Some ref ->
  failing env event ->
  maxRetries (dm w) <= Int64.wrap (AttemptCount event + 1) ->
  ForceRetry_lookup eventID clockAt range (Some w) = Some (Found ref) /\
  exists w1 w2 w3 w4 failed event',
    step w (OpProcessDelivery env i) w1 /\
    heap w1 !! ref = Some failed /\
    Status failed = DeliveryStatusFailed /\
    pendingEvents (dm w1) !! eventID = None /\
    step w1 (OpForceRetryStatement SetAttemptCount ref) w2 /\
    step w2 (OpForceRetryStatement SetStatus ref) w3 /\
    step w3 (OpForceRetryStatement Spawn ref) w4 /\
    heap w4 !! ref = Some event' /\
    Status event' = DeliveryStatusPending /\
    AttemptCount event' = 0 /\
    LastError event' = "Max retries exceeded" /\
    pendingEvents (dm w4) !! eventID = None /\
    goroutines w4 = delete i (goroutines w) ++ [ref].
Proof.
  intros Hinv Hp Hev Hi Hfail Hmax.
  destruct (Hinv _ _ Hp) as (e0 & He0 & Hid & Hne & _).
  rewrite Hev in He0. injection He0 as <-.
  split.
  { unfold ForceRetry_lookup. destruct (decide (eventID = "")); [done |].
    by rewrite (GetEventStatus_Some _ _ _ Hp). }
  remember (set_LastError "Max retries exceeded"
              (set_Status DeliveryStatusFailed
                 (set_AttemptCount (Int64.wrap (AttemptCount event + 1)) event)))
    as failed eqn:Hfailed.
  assert (Hidf : ID failed = eventID) by (by subst failed).
  exists (mkWorld (<[ref := failed]> (heap w))
            (mkDeliveryManager (delete eventID (pendingEvents (dm w)))
               (maxRetries (dm w)) (retryBackoff (dm w)) (timeout (dm w)))
            (delete i (goroutines w))
            (network w ++ concat (dispatch env event).*2)).
  exists (mkWorld (<[ref := set_AttemptCount 0 failed]> (<[ref := failed]> (heap w)))
            (mkDeliveryManager (delete eventID (pendingEvents (dm w)))
               (maxRetries (dm w)) (retryBackoff (dm w)) (timeout (dm w)))
            (delete i (goroutines w))
            (network w ++ concat (dispatch env event).*2)).
  exists (mkWorld (<[ref := set_Status DeliveryStatusPending
                             (set_AttemptCount 0 failed)]>
                     (<[ref := set_AttemptCount 0 failed]>
                        (<[ref := failed]> (heap w))))
            (mkDeliveryManager (delete eventID (pendingEvents (dm w)))
               (maxRetries (dm w)) (retryBackoff (dm w)) (timeout (dm w)))
            (delete i (goroutines w))
            (network w ++ concat (dispatch env event).*2)).
  exists (mkWorld (<[ref := set_Status DeliveryStatusPending
                             (set_AttemptCount 0 failed)]>
                     (<[ref := set_AttemptCount 0 failed]>
                        (<[ref := failed]> (heap w))))
            (mkDeliveryManager (delete eventID (pendingEvents (dm w)))
               (maxRetries (dm w)) (retryBackoff (dm w)) (timeout (dm w)))
            (delete i (goroutines w) ++ [ref])
            (network w ++ concat (dispatch env event).*2)).
  exists failed, (set_Status DeliveryStatusPending (set_AttemptCount 0 failed)).
  split.
  { split; [exact I |]. cbn [exec]. rewrite Hi. cbn [mbind option_bind].
    rewrite (processDelivery_failing _ _ _ _ Hev Hfail).
    cbn [mbind option_bind].
    rewrite update_status_exhausted by exact Hmax.
    cbn [heap dm goroutines network]. rewrite <- Hfailed, Hid. reflexivity. }
  split; [cbn; by rewrite lookup_insert_eq |].
  split; [by subst failed |].
  split; [cbn; by rewrite lookup_delete_eq |].
  split.
  { split.
    - exists failed. cbn. rewrite lookup_insert_eq. split; [done | congruence].
    - cbn. rewrite lookup_insert_eq. reflexivity. }
  split.
  { split.
    - exists (set_AttemptCount 0 failed). cbn. rewrite lookup_insert_eq.
      split; [done |]. cbn. congruence.
    - cbn. rewrite lookup_insert_eq. reflexivity. }
  split.
  { split.
    - exists (set_Status DeliveryStatusPending (set_AttemptCount 0 failed)).
      cbn. rewrite lookup_insert_eq. split; [done |]. cbn. congruence.
    - reflexivity. }
  split; [cbn; by rewrite lookup_insert_eq |].
  split; [reflexivity |]. split; [reflexivity |].
  split; [by subst failed |].
  split; [cbn; by rewrite lookup_delete_eq | reflexivity].
Qed.

Lemma ForceRetry_resets_record_failed_since_lookup_witness :
  tracked_pending (Scenario.tracked 2) /\
  pendingEvents (dm (Scenario.tracked 2)) !! "evt-1" = Some 1%positive /\
  goroutines (Scenario.tracked 2) !! 0%nat = Some 1%positive /\
  failing Scenario.broker_down (set_AttemptCount 2 Scenario.receipt) /\
  maxRetries (dm (Scenario.tracked 2)) <= Int64.wrap (2 + 1) /\
  ForceRetry_lookup "evt-1" (fun _ => 0) [] (Some (Scenario.tracked 2))
    = Some (Found 1%positive) /\
  exists w4 event',
    exec_all [OpProcessDelivery Scenario.broker_down 0;
              OpForceRetryStatement SetAttemptCount 1;
              OpForceRetryStatement SetStatus 1;
              OpForceRetryStatement Spawn 1] (Scenario.tracked 2) = Some w4 /\
    heap w4 !! 1%positive = Some event' /\
    Status event' = DeliveryStatusPending /\
    AttemptCount event' = 0 /\
    pendingEvents (dm w4) !! "evt-1" = None /\
    goroutines w4 = [1%positive].
Proof.
  assert (Hinv : tracked_pending (Scenario.tracked 2)).
  { intros id ref Hp. simpl in Hp.
    apply lookup_singleton_Some in Hp as [<- <-].
    eexists. split; [reflexivity |]. split; [reflexivity |].
    split; [discriminate | reflexivity]. }
  assert (Hp : pendingEvents (dm (Scenario.tracked 2)) !! "evt-1"
               = Some 1%positive) by reflexivity.
  assert (Hi : goroutines (Scenario.tracked 2) !! 0%nat = Some 1%positive)
    by reflexivity.
  assert (Hfail : failing Scenario.broker_down
                    (set_AttemptCount 2 Scenario.receipt))
    by apply broker_down_failing.
  assert (Hmax : maxRetries (dm (Scenario.tracked 2)) <= Int64.wrap (2 + 1))
    by (vm_compute; discriminate).
  split; [exact Hinv |]. split; [exact Hp |]. split; [exact Hi |].
  split; [exact Hfail |]. split; [exact Hmax |].
  destruct (ForceRetry_resets_record_failed_since_lookup
              Scenario.broker_down 0%nat 1%positive "evt-1" (fun _ => 0) []
              (set_AttemptCount 2 Scenario.receipt) (Scenario.tracked 2)
              Hinv Hp eq_refl Hi Hfail Hmax)
    as (Hlook & w1 & w2 & w3 & w4 & failed & event' &
        [_ H1] & _ & _ & _ & [_ H2] & [_ H3] & [_ H4] &
        Hev' & Hst & Hcount & _ & Hgone & Hpool).
  split; [exact Hlook |].
  exists w4, event'. split.
  { unfold exec_all. cbn [foldl mbind option_bind].
    rewrite H1. cbn [mbind option_bind]. rewrite H2.
    cbn [mbind option_bind]. rewrite H3. cbn [mbind option_bind]. exact H4. }
  split; [exact Hev' |]. split; [exact Hst |]. split; [exact Hcount |].
  split; [exact Hgone |]. rewrite Hpool. reflexivity.
Defined.
